(** * Student API practice server: authentication guards and student CRUD

    A shallow embedding of [server.js] (the two authentication middlewares)
    and of [routes/students.js] (the create / replace / patch / delete
    handlers over the in-memory [students] array mirrored to
    [data/students.json]), followed by the properties of the specification
    that are about them; then the public routes of [routes/students.js],
    its startup, and the login routes of [server.js], with what holds across
    requests.

    Modelling conventions.
    - A JSON value of a request body is a [JS.value]; a field that is
      missing from the body is [JS.Undefined], as after the destructuring
      [const { name, age, email, isActive } = req.body || {}].
    - JSON numbers are rationals ([Q]); student ids are integers ([Z]), and
      so is a route parameter that [Number] converts ([None] stands for
      [NaN]). The one sum the handlers compute, [maxId + 1], is the IEEE-754
      sum ([IEEE.add]). Non-finite numbers are outside the model.
    - A stored record has the four typed fields of the data model.
    - [fs.writeFileSync] always succeeds; [file] is the array it was last
      given.
    - [String.prototype.toLowerCase] and [jwt.verify] are library functions:
      they are section variables, so every result holds for any lowering
      function and any verifier.
    - The module-level [students] array and the JSON file are the two
      components of [Store]; handlers are computations in a small state
      monad with early reply ([return res.status(..).json(..)]).
    - [student.name = name] mutates the array element that [students.find]
      returned: it is an update at the index of that element. *)

From Stdlib Require Import ZArith QArith String Ascii DecimalString.
From stdpp Require Import base decidable option list strings.

Close Scope Q_scope.
Open Scope Z_scope.
Open Scope string_scope.

(** ** JavaScript values as they arrive in a parsed JSON body *)

Module JS.

Inductive value : Type :=
| Undefined
| Null
| Bool (b : bool)
| Number (q : Q)
| Str (s : string)
| Object.   (* arrays and objects; their contents are never inspected *)

Inductive type : Type := TUndefined | TObject | TBoolean | TNumber | TString.

Global Instance type_eq_dec : EqDecision type.
Proof. solve_decision. Defined.

(** [typeof v] *)
Definition typeof (v : value) : type :=
  match v with
  | Undefined => TUndefined
  | Null => TObject
  | Bool _ => TBoolean
  | Number _ => TNumber
  | Str _ => TString
  | Object => TObject
  end.

(** Truthiness, as tested by [!v]. *)
Definition truthy (v : value) : bool :=
  match v with
  | Undefined => false
  | Null => false
  | Bool b => b
  | Number q => negb (Qeq_bool q 0)
  | Str s => negb (bool_decide (s = ""))
  | Object => true
  end.

(** [v === undefined] *)
Definition is_undefined (v : value) : bool :=
  match v with Undefined => true | _ => false end.

(** [v <= 0]; the handlers evaluate it only after [typeof v === "number"]. *)
Definition le_zero (v : value) : bool :=
  match v with Number q => Qle_bool q 0 | _ => false end.

(** [s.split(sep)] for a one-character separator: never empty, and one more
    part than there are separators in [s]. *)
Fixpoint split (sep : ascii) (s : string) : list string :=
  match s with
  | EmptyString => [""]
  | String c rest =>
      if bool_decide (c = sep) then "" :: split sep rest
      else match split sep rest with
           | p :: ps => String c p :: ps
           | [] => [String c ""]
           end
  end.

(** Template-literal rendering of an integer; it is the source's rendering
    below 10^21 in magnitude, where [String] prints every digit. *)
Definition show (z : Z) : string := NilZero.string_of_int (Z.to_int z).

(** ASCII instance of [toLowerCase], used to run the handlers on concrete
    requests. *)
Definition lower_ascii (c : ascii) : ascii :=
  let n := nat_of_ascii c in
  if (65 <=? n)%nat && (n <=? 90)%nat then ascii_of_nat (n + 32) else c.

Fixpoint asciiLowerCase (s : string) : string :=
  match s with
  | EmptyString => EmptyString
  | String c rest => String (lower_ascii c) (asciiLowerCase rest)
  end.

End JS.

(** ** Sums of JavaScript numbers that are integers *)

Module IEEE.

(** The double nearest to the integer [z], ties to the even significand:
    every integer up to 2^53 in magnitude is a double; above, the doubles
    are the multiples of [2^e] with a 53-bit quotient. Magnitudes stay below
    2^1024. *)
Definition round (z : Z) : Z :=
  let a := Z.abs z in
  if (a <=? 2 ^ 53)%Z then z
  else
    let e := Z.log2 a - 52 in
    let q := a / 2 ^ e in
    let r := a mod 2 ^ e in
    let half := 2 ^ (e - 1) in
    let up := (half <? r)%Z || ((half =? r)%Z && Z.odd q) in
    Z.sgn z * ((if up then q + 1 else q) * 2 ^ e).

(** [x + y] on doubles that are integers *)
Definition add (x y : Z) : Z := round (x + y).

End IEEE.

(** ** Data model *)

Module Student.
Record t : Type := mk
  { id : Z; name : string; age : Q; email : string; isActive : bool }.

Definition set_name (v : string) (s : t) : t :=
  {| id := id s; name := v; age := age s; email := email s; isActive := isActive s |}.
Definition set_age (v : Q) (s : t) : t :=
  {| id := id s; name := name s; age := v; email := email s; isActive := isActive s |}.
Definition set_email (v : string) (s : t) : t :=
  {| id := id s; name := name s; age := age s; email := v; isActive := isActive s |}.
Definition set_isActive (v : bool) (s : t) : t :=
  {| id := id s; name := name s; age := age s; email := email s; isActive := v |}.
End Student.

(** [req.body || {}] after destructuring its four fields. *)
Module Body.
Record t : Type := mk
  { name : JS.value; age : JS.value; email : JS.value; isActive : JS.value }.
End Body.

(** [req.user] *)
Record User : Type := { username : string; role : string }.

(** The parts of a request the guards and handlers read.
    [params_id] is [Number(req.params.id)], with [None] for [NaN]. *)
Record Request : Type :=
  { authorization : option string;   (* req.headers["authorization"] *)
    sessionId : option string;       (* req.cookies.sessionId *)
    params_id : option Z;
    body : Body.t }.

(** JSON response bodies, one constructor per shape the source sends. *)
Inductive Json : Type :=
| JsonError (error : string)
| JsonErrorHint (error hint : string)
| JsonErrorExample (error example : string)
| JsonErrorDetail (error details : string)
| JsonErrorDetails (error : string) (details : list string)
| JsonErrorStudent (error : string) (student : Student.t)
| JsonMessageStudent (message : string) (student : Student.t).

Record Response : Type := { status : nat; json : Json }.

(** The in-memory array and the array last written to
    [data/students.json]. *)
Record Store : Type := { students : list Student.t; file : list Student.t }.

(** ** Handlers: state with early reply *)

Inductive Outcome (A : Type) : Type :=
| Replied (r : Response)
| Continue (a : A).
Arguments Replied {A} r.
Arguments Continue {A} a.

Definition Handler (A : Type) : Type := Store → Outcome A * Store.

Global Instance Handler_ret : MRet Handler := λ A a st, (Continue a, st).

Global Instance Handler_bind : MBind Handler := λ A B f m st,
  match m st with
  | (Replied r, st') => (Replied r, st')
  | (Continue a, st') => f a st'
  end.

(** [return res.status(code).json(j)] *)
Definition reply {A} (code : nat) (j : Json) : Handler A :=
  λ st, (Replied {| status := code; json := j |}, st).

Definition getStudents : Handler (list Student.t) :=
  λ st, (Continue (students st), st).

Definition setStudents (l : list Student.t) : Handler unit :=
  λ st, (Continue tt, {| students := l; file := file st |}).

(** [fs.writeFileSync(dataFilePath, JSON.stringify(students))] *)
Definition saveStudents : Handler unit :=
  λ st, (Continue tt, {| students := students st; file := students st |}).

(** Assignment to a field of the array element at [index]. *)
Definition assign (index : nat) (f : Student.t → Student.t) : Handler unit :=
  l ← getStudents; setStudents (alter f index l).

(** Reading the object behind a reference obtained from [students.find]. *)
Definition deref (index : nat) : Handler Student.t :=
  l ← getStudents;
  match l !! index with
  | Some s => mret s
  | None => reply 500 (JsonError "Internal Server Error")
  end.

(** A handler always ends by sending a response. *)
Definition run (h : Handler Response) (st : Store) : Response * Store :=
  match h st with
  | (Replied r, st') => (r, st')
  | (Continue r, st') => (r, st')
  end.

(** Express middleware: either it responds and the chain stops, or it sets
    [req.user] and calls [next()]. *)
Inductive Guard : Type :=
| Rejected (r : Response)
| Next (user : User).

Definition protect (g : Guard) (h : Handler Response) (st : Store) : Response * Store :=
  match g with
  | Rejected r => (r, st)
  | Next _ => run h st
  end.

(** ** server.js: the authentication middlewares *)

Module Server.

(** [!x] for [x] a string or [undefined]. *)
Definition not_string (x : option string) : bool :=
  match x with
  | None => true
  | Some s => bool_decide (s = "")
  end.

Section Guards.

(** [process.env.JWT_SECRET] *)
Variable env_JWT_SECRET : option string.

(** [jwt.verify(token, secret, callback)]: [inl] is [err.message], [inr] the
    decoded payload. Signature and expiry are checked inside the library. *)
Variable jwt_verify : string → string → string + User.

Definition JWT_SECRET : string :=
  match env_JWT_SECRET with
  | Some s => if bool_decide (s = "") then "super-secret-key-change-me" else s
  | None => "super-secret-key-change-me"
  end.

Definition missing_header : Response :=
  {| status := 401;
     json := JsonErrorHint "Missing Authorization header"
                           "Send: Authorization: Bearer <token>" |}.

Definition bad_format : Response :=
  {| status := 401;
     json := JsonErrorExample "Invalid Authorization header format"
                              "Authorization: Bearer <token>" |}.

Definition bad_token (message : string) : Response :=
  {| status := 401; json := JsonErrorDetail "Invalid or expired token" message |}.

Definition requireJwt (req : Request) : Guard :=
  let authHeader := authorization req in
  if not_string authHeader then Rejected missing_header
  else
    let parts := JS.split " " (default "" authHeader) in
    if negb (bool_decide (length parts = 2%nat))
       || negb (bool_decide (parts !! 0%nat = Some "Bearer"))
    then Rejected bad_format
    else
      let token := default "" (parts !! 1%nat) in
      match jwt_verify token JWT_SECRET with
      | inl message => Rejected (bad_token message)
      | inr decoded => Next decoded
      end.

Definition missing_cookie : Response :=
  {| status := 401;
     json := JsonError "Missing sessionId cookie. Please login via /auth/login-cookie." |}.

Definition bad_session : Response :=
  {| status := 401; json := JsonError "Invalid session cookie. Please login again." |}.

Definition cookieUser : User := {| username := "cookieUser"; role := "cookie-tester" |}.

Definition requireCookieLogin (req : Request) : Guard :=
  let sessionId := sessionId req in
  if not_string sessionId then Rejected missing_cookie
  else if negb (bool_decide (sessionId = Some "dummy-session-id")) then Rejected bad_session
  else Next cookieUser.

End Guards.

End Server.

(** ** routes/students.js: the CRUD handlers *)

Module Students.

Section Router.

(** [String.prototype.toLowerCase] *)
Variable toLowerCase : string → string.

(** The router factory receives the two middlewares:
    [module.exports = function (requireJwt, requireCookieLogin)]. *)
Variable requireJwt : Request → Guard.

(** *** Full validation (POST and PUT) *)

(** [!name || typeof name !== "string"], also used for [email] *)
Definition text_invalid (v : JS.value) : bool :=
  negb (JS.truthy v) || negb (bool_decide (JS.typeof v = JS.TString)).

(** [age === undefined || typeof age !== "number" || age <= 0] *)
Definition age_invalid (v : JS.value) : bool :=
  JS.is_undefined v || negb (bool_decide (JS.typeof v = JS.TNumber)) || JS.le_zero v.

(** [typeof isActive !== "boolean"] *)
Definition isActive_invalid (v : JS.value) : bool :=
  negb (bool_decide (JS.typeof v = JS.TBoolean)).

(** [if (c) errors.push(message)] *)
Definition push_if (c : bool) (message : string) (errors : list string) : list string :=
  if c then errors ++ [message] else errors.

Definition validate (b : Body.t) : list string :=
  let errors := [] in
  let errors := push_if (text_invalid (Body.name b))
                  "name is required and must be a string" errors in
  let errors := push_if (age_invalid (Body.age b))
                  "age is required and must be a positive number" errors in
  let errors := push_if (text_invalid (Body.email b))
                  "email is required and must be a string" errors in
  let errors := push_if (isActive_invalid (Body.isActive b))
                  "isActive is required and must be a boolean" errors in
  errors.

(** [s.email.toLowerCase() === email.toLowerCase()] *)
Definition same_email (email : string) (s : Student.t) : Prop :=
  toLowerCase (Student.email s) = toLowerCase email.

Global Instance same_email_dec email s : Decision (same_email email s).
Proof. unfold same_email. apply _. Defined.

(** [students.reduce((max, s) => (s.id > max ? s.id : max), 0)] *)
Definition maxId (l : list Student.t) : Z :=
  foldl (λ max s, if Student.id s >? max then Student.id s else max) 0 l.

Definition not_found (id : Z) : Json :=
  JsonError ("Student with id " +:+ JS.show id +:+ " not found").

Definition invalid_id : Json := JsonError "Invalid ID. Must be a number.".

(** The branch taken when a body passed [validate] without having the four
    field types; [validate_nil] shows that it is never taken. *)
Definition unreachable {A} : Handler A := reply 500 (JsonError "Internal Server Error").

(** *** POST /students *)
Definition post_student (b : Body.t) : Handler Response :=
  let errors := validate b in
  if bool_decide (0 < length errors)%nat then
    reply 400 (JsonErrorDetails "Validation failed" errors)
  else
    match Body.name b, Body.age b, Body.email b, Body.isActive b with
    | JS.Str name, JS.Number age, JS.Str email, JS.Bool isActive =>
        l ← getStudents;
        match list_find (same_email email) l with
        | Some (_, existing) =>
            reply 409 (JsonErrorStudent "A student with this email already exists" existing)
        | None =>
            let newStudent :=
              {| Student.id := IEEE.add (maxId l) 1; Student.name := name; Student.age := age;
                 Student.email := email; Student.isActive := isActive |} in
            setStudents (l ++ [newStudent]);;
            saveStudents;;
            reply 201 (JsonMessageStudent "Student created" newStudent)
        end
    | _, _, _, _ => unreachable
    end.

(** *** PUT /students/:id *)
Definition put_student (param : option Z) (b : Body.t) : Handler Response :=
  match param with
  | None => reply 400 invalid_id
  | Some id =>
      l ← getStudents;
      match list_find (λ s, Student.id s = id) l with
      | None => reply 404 (not_found id)
      | Some (index, _) =>
          let errors := validate b in
          if bool_decide (0 < length errors)%nat then
            reply 400 (JsonErrorDetails "Validation failed" errors)
          else
            match Body.name b, Body.age b, Body.email b, Body.isActive b with
            | JS.Str name, JS.Number age, JS.Str email, JS.Bool isActive =>
                match list_find (λ s, same_email email s ∧ Student.id s ≠ id) l with
                | Some (_, existing) =>
                    reply 409
                      (JsonErrorStudent "Another student with this email already exists" existing)
                | None =>
                    let updatedStudent :=
                      {| Student.id := id; Student.name := name; Student.age := age;
                         Student.email := email; Student.isActive := isActive |} in
                    setStudents (<[index := updatedStudent]> l);;
                    saveStudents;;
                    reply 200 (JsonMessageStudent "Student updated" updatedStudent)
                end
            | _, _, _, _ => unreachable
            end
      end
  end.

(** *** PATCH /students/:id

    Each block is [if (f !== undefined) { if (typeof f !== ..) return 400; student.f = f }];
    [student] is the index of the element [students.find] returned. *)
Definition patch_name (student : nat) (v : JS.value) : Handler unit :=
  match v with
  | JS.Undefined => mret tt
  | JS.Str name => assign student (Student.set_name name)
  | _ => reply 400 (JsonError "Invalid 'name'. Must be a string.")
  end.

Definition patch_age (student : nat) (v : JS.value) : Handler unit :=
  match v with
  | JS.Undefined => mret tt
  | JS.Number age =>
      if Qle_bool age 0 then reply 400 (JsonError "Invalid 'age'. Must be a positive number.")
      else assign student (Student.set_age age)
  | _ => reply 400 (JsonError "Invalid 'age'. Must be a positive number.")
  end.

Definition patch_email (id : Z) (student : nat) (v : JS.value) : Handler unit :=
  match v with
  | JS.Undefined => mret tt
  | JS.Str email =>
      l ← getStudents;
      match list_find (λ s, same_email email s ∧ Student.id s ≠ id) l with
      | Some (_, existing) =>
          reply 409 (JsonErrorStudent "Another student with this email already exists" existing)
      | None => assign student (Student.set_email email)
      end
  | _ => reply 400 (JsonError "Invalid 'email'. Must be a string.")
  end.

Definition patch_isActive (student : nat) (v : JS.value) : Handler unit :=
  match v with
  | JS.Undefined => mret tt
  | JS.Bool isActive => assign student (Student.set_isActive isActive)
  | _ => reply 400 (JsonError "Invalid 'isActive'. Must be a boolean.")
  end.

Definition patch_student (param : option Z) (b : Body.t) : Handler Response :=
  match param with
  | None => reply 400 invalid_id
  | Some id =>
      l ← getStudents;
      match list_find (λ s, Student.id s = id) l with
      | None => reply 404 (not_found id)
      | Some (student, _) =>
          patch_name student (Body.name b);;
          patch_age student (Body.age b);;
          patch_email id student (Body.email b);;
          patch_isActive student (Body.isActive b);;
          saveStudents;;
          s ← deref student;
          reply 200 (JsonMessageStudent "Student partially updated" s)
      end
  end.

(** *** DELETE /students/:id *)
Definition delete_student (param : option Z) : Handler Response :=
  match param with
  | None => reply 400 invalid_id
  | Some id =>
      l ← getStudents;
      match list_find (λ s, Student.id s = id) l with
      | None => reply 404 (not_found id)
      | Some (index, deleted) =>
          setStudents (delete index l);;
          saveStudents;;
          reply 200 (JsonMessageStudent "Student deleted" deleted)
      end
  end.

(** *** The protected routes *)
Definition POST (req : Request) : Store → Response * Store :=
  protect (requireJwt req) (post_student (body req)).
Definition PUT (req : Request) : Store → Response * Store :=
  protect (requireJwt req) (put_student (params_id req) (body req)).
Definition PATCH (req : Request) : Store → Response * Store :=
  protect (requireJwt req) (patch_student (params_id req) (body req)).
Definition DELETE (req : Request) : Store → Response * Store :=
  protect (requireJwt req) (delete_student (params_id req)).

End Router.

End Students.

(** ** The specification's vocabulary *)

Module Spec.

(** *** Field rules of full validation, in the specification's words *)

(** non-empty text *)
Definition nonempty_text (v : JS.value) : bool :=
  match v with
  | JS.Str s => negb (String.eqb s "")
  | _ => false
  end.

(** a number strictly greater than 0 (and present) *)
Definition positive_number (v : JS.value) : bool :=
  match v with
  | JS.Number q => if Qlt_le_dec 0 q then true else false
  | _ => false
  end.

(** a boolean *)
Definition boolean (v : JS.value) : bool :=
  match v with
  | JS.Bool _ => true
  | _ => false
  end.

(** The four rules in their fixed order, each with its message. *)
Definition rules : list ((Body.t → bool) * string) :=
  [ (λ b, nonempty_text (Body.name b), "name is required and must be a string");
    (λ b, positive_number (Body.age b), "age is required and must be a positive number");
    (λ b, nonempty_text (Body.email b), "email is required and must be a string");
    (λ b, boolean (Body.isActive b), "isActive is required and must be a boolean") ].

(** One message per violated rule, in rule order. *)
Definition violations (b : Body.t) : list string :=
  snd <$> filter (λ r, r.1 b = false) rules.

(** *** Field rules of partial update: a present field must have its type *)

Definition text_or_absent (v : JS.value) : bool :=
  match v with
  | JS.Undefined | JS.Str _ => true
  | _ => false
  end.

Definition positive_or_absent (v : JS.value) : bool :=
  match v with
  | JS.Undefined => true
  | _ => positive_number v
  end.

Definition boolean_or_absent (v : JS.value) : bool :=
  match v with
  | JS.Undefined | JS.Bool _ => true
  | _ => false
  end.

(** Overwriting one field of a record by a payload field, when the payload
    field is present with the field's type; the record is untouched
    otherwise. *)
Definition with_name (v : JS.value) (s : Student.t) : Student.t :=
  match v with JS.Str x => Student.set_name x s | _ => s end.
Definition with_age (v : JS.value) (s : Student.t) : Student.t :=
  match v with JS.Number x => Student.set_age x s | _ => s end.
Definition with_email (v : JS.value) (s : Student.t) : Student.t :=
  match v with JS.Str x => Student.set_email x s | _ => s end.
Definition with_isActive (v : JS.value) (s : Student.t) : Student.t :=
  match v with JS.Bool x => Student.set_isActive x s | _ => s end.

(** A body whose four fields have their types. *)
Definition typed_body (name : string) (age : Q) (email : string) (isActive : bool) : Body.t :=
  {| Body.name := JS.Str name; Body.age := JS.Number age;
     Body.email := JS.Str email; Body.isActive := JS.Bool isActive |}.

(** The 400 response of full validation. *)
Definition validation_failed (b : Body.t) : Response :=
  {| status := 400; json := JsonErrorDetails "Validation failed" (violations b) |}.

(** All present fields of a partial body written over a record. *)
Definition patched (b : Body.t) (s : Student.t) : Student.t :=
  with_isActive (Body.isActive b)
    (with_email (Body.email b) (with_age (Body.age b) (with_name (Body.name b) s))).

(** Another record (an id other than [id]) has the payload's email, when
    the payload has one; the first such record in store order. *)
Definition conflict (toLowerCase : string → string) (id : Z) (v : JS.value)
    (l : list Student.t) : option Student.t :=
  match v with
  | JS.Str email =>
      snd <$> list_find (λ s, Students.same_email toLowerCase email s ∧ Student.id s ≠ id) l
  | _ => None
  end.

(** The store after the record at [index] was mutated into [x], nothing
    written to the file yet. *)
Definition mem (st : Store) (index : nat) (x : Student.t) : Store :=
  {| students := <[index := x]> (students st); file := file st |}.

(** *** Store invariants *)

(** No two positions of [l] hold records with the same key. *)
Definition unique_by {K} (key : Student.t → K) (l : list Student.t) : Prop :=
  ∀ i j x y, l !! i = Some x → l !! j = Some y → key x = key y → i = j.

Definition unique_ids : list Student.t → Prop := unique_by Student.id.

Definition unique_emails (toLowerCase : string → string) : list Student.t → Prop :=
  unique_by (λ s, toLowerCase (Student.email s)).

Definition store_ok (toLowerCase : string → string) (l : list Student.t) : Prop :=
  unique_emails toLowerCase l ∧ unique_ids l.

(** [max(ids, default d)]: the largest of [d] and the ids. *)
Definition max_default (d : Z) (ids : list Z) : Z := foldr Z.max d ids.

(** The student with id [id] that [students.find] returns sits at [index]. *)
Definition found (l : list Student.t) (id : Z) (index : nat) (s : Student.t) : Prop :=
  list_find (λ x, Student.id x = id) l = Some (index, s).

End Spec.

(** ** The claims' terms, independent of the handlers' helpers *)

Module Terms.

Section Emails.

Variable toLowerCase : string → string.

(** Two emails are equal case-insensitively. *)
Definition ci_equal (a b : string) : Prop := toLowerCase a = toLowerCase b.

(** Some record of [l] has the email, up to case. *)
Definition held (l : list Student.t) (email : string) : Prop :=
  ∃ x, x ∈ l ∧ ci_equal (Student.email x) email.

(** Some record of [l] with an id other than [id] has the email, up to
    case. *)
Definition held_by_other (l : list Student.t) (id : Z) (email : string) : Prop :=
  ∃ x, x ∈ l ∧ ci_equal (Student.email x) email ∧ Student.id x ≠ id.

(** The payload carries an email, a string, that a record with another id
    has. *)
Definition taken (l : list Student.t) (id : Z) (v : JS.value) : Prop :=
  ∃ email, v = JS.Str email ∧ held_by_other l id email.

End Emails.

(** Every id is below 2^53, so that one more is still an exact double. *)
Definition safe_ids (l : list Student.t) : Prop :=
  Forall (λ s, (Student.id s < 2 ^ 53)%Z) l.

(** The payload's value for a field when it is present with the field's
    type, the stored value otherwise. *)
Definition text_or (v : JS.value) (old : string) : string :=
  match v with JS.Str x => x | _ => old end.
Definition number_or (v : JS.value) (old : Q) : Q :=
  match v with JS.Number x => x | _ => old end.

(** The stored record once the name was written; once the name and the age
    were; once the name, the age and the email were. *)
Definition written_name (b : Body.t) (s : Student.t) : Student.t :=
  {| Student.id := Student.id s;
     Student.name := text_or (Body.name b) (Student.name s);
     Student.age := Student.age s;
     Student.email := Student.email s;
     Student.isActive := Student.isActive s |}.

Definition written_age (b : Body.t) (s : Student.t) : Student.t :=
  {| Student.id := Student.id s;
     Student.name := text_or (Body.name b) (Student.name s);
     Student.age := number_or (Body.age b) (Student.age s);
     Student.email := Student.email s;
     Student.isActive := Student.isActive s |}.

Definition written_email (b : Body.t) (s : Student.t) : Student.t :=
  {| Student.id := Student.id s;
     Student.name := text_or (Body.name b) (Student.name s);
     Student.age := number_or (Body.age b) (Student.age s);
     Student.email := text_or (Body.email b) (Student.email s);
     Student.isActive := Student.isActive s |}.

End Terms.

(** ** Sample requests and stores *)

Module Sample.

Definition ann : Student.t :=
  {| Student.id := 1; Student.name := "Ann"; Student.age := 20 # 1;
     Student.email := "Ann@example.org"; Student.isActive := true |}.

Definition bob : Student.t :=
  {| Student.id := 2; Student.name := "Bob"; Student.age := 21 # 1;
     Student.email := "bob@example.org"; Student.isActive := false |}.

Definition store : Store := {| students := [ann; bob]; file := [ann; bob] |}.

Definition empty : Body.t :=
  {| Body.name := JS.Undefined; Body.age := JS.Undefined;
     Body.email := JS.Undefined; Body.isActive := JS.Undefined |}.

(** [{"name":"Cid","age":22.5,"email":"cid@example.org","isActive":true}] *)
Definition cid : Body.t :=
  {| Body.name := JS.Str "Cid"; Body.age := JS.Number (45 # 2);
     Body.email := JS.Str "cid@example.org"; Body.isActive := JS.Bool true |}.

(** [{"age":23}] *)
Definition age23 : Body.t :=
  {| Body.name := JS.Undefined; Body.age := JS.Number (23 # 1);
     Body.email := JS.Undefined; Body.isActive := JS.Undefined |}.

(** [{"name":""}] *)
Definition blank_name : Body.t :=
  {| Body.name := JS.Str ""; Body.age := JS.Undefined;
     Body.email := JS.Undefined; Body.isActive := JS.Undefined |}.

(** [{"name":"Bobby","age":0}] *)
Definition bobby_age0 : Body.t :=
  {| Body.name := JS.Str "Bobby"; Body.age := JS.Number 0;
     Body.email := JS.Undefined; Body.isActive := JS.Undefined |}.

Definition request (auth cookie : option string) : Request :=
  {| authorization := auth; sessionId := cookie; params_id := None; body := empty |}.

(** A verifier that accepts the single token ["good"]. *)
Definition verify (token secret : string) : string + User :=
  if bool_decide (token = "good")
  then inr {| username := "testuser"; role := "student-admin" |}
  else inl "jwt malformed".

End Sample.

(** ** The routes outside the protected CRUD handlers *)

(** Bodies these routes send: the shapes of [Json] and their own. *)
Inductive Payload : Type :=
| PlainJson (j : Json)
| JsonStudent (student : Student.t)                   (* res.json(student) *)
| JsonListing (count : nat) (data : list Student.t)   (* { count, data } *)
| JsonMessage (message : string)
| JsonMessageNote (message note : string)
| JsonMessageUser (message : string) (user : User)
| JsonLogin (message token howToUse : string)
| JsonErrorExampleBody (error username password : string)
| JsonNotFound (error pathTried method : string)
| JsonErrorMessage (error message : string).

(** [res.cookie(name, value, { httpOnly, sameSite })] and
    [res.clearCookie(name)] *)
Inductive CookieOp : Type :=
| SetCookie (name value : string) (httpOnly : bool) (sameSite : string)
| ClearCookie (name : string).

Record Reply : Type := { code : nat; payload : Payload; setCookies : list CookieOp }.

(** The response a middleware sent, as a reply without cookies. *)
Definition rejected (r : Response) : Reply :=
  {| code := status r; payload := PlainJson (json r); setCookies := [] |}.

(** A guarded route whose handler reads [req.user] and no store. *)
Definition guarded (g : Guard) (h : User → Reply) : Reply :=
  match g with
  | Rejected r => rejected r
  | Next user => h user
  end.

(** *** routes/students.js: the public routes and the test routes *)

Module Public.

(** GET /students *)
Definition get_students (st : Store) : Reply * Store :=
  ({| code := 200; payload := JsonListing (length (students st)) (students st);
      setCookies := [] |}, st).

(** GET /students/:id *)
Definition get_student (param : option Z) (st : Store) : Reply * Store :=
  match param with
  | None =>
      ({| code := 400; payload := PlainJson Students.invalid_id; setCookies := [] |}, st)
  | Some id =>
      match list_find (λ s, Student.id s = id) (students st) with
      | None =>
          ({| code := 404; payload := PlainJson (Students.not_found id);
              setCookies := [] |}, st)
      | Some (_, student) =>
          ({| code := 200; payload := JsonStudent student; setCookies := [] |}, st)
      end
  end.

Section TestRoutes.

Variables requireJwt requireCookieLogin : Request → Guard.

(** GET /students/protected/cookie-only *)
Definition cookie_only (req : Request) : Reply :=
  guarded (requireCookieLogin req) (λ user,
    {| code := 200;
       payload := JsonMessageUser "This students route is protected by cookie-based auth." user;
       setCookies := [] |}).

(** GET /students/protected/jwt-only *)
Definition jwt_only (req : Request) : Reply :=
  guarded (requireJwt req) (λ user,
    {| code := 200;
       payload := JsonMessageUser "This students route is protected by JWT." user;
       setCookies := [] |}).

End TestRoutes.

End Public.

(** *** server.js: the login routes and the routes they protect *)

Module Auth.

(** [const { username, password } = req.body || {}] *)
Module Credentials.
Record t : Type := mk { username : JS.value; password : JS.value }.
End Credentials.

(** [DEMO_USER] *)
Record DemoUser : Type := { demo_username : string; demo_password : string; demo_role : string }.

Definition DEMO_USER : DemoUser :=
  {| demo_username := "testuser"; demo_password := "password123";
     demo_role := "student-admin" |}.

(** [v !== s] for a string [s] *)
Definition differs (v : JS.value) (s : string) : bool :=
  match v with
  | JS.Str x => negb (bool_decide (x = s))
  | _ => true
  end.

(** [s] contains the character [c] *)
Fixpoint has_char (c : ascii) (s : string) : bool :=
  match s with
  | EmptyString => false
  | String x rest => bool_decide (x = c) || has_char c rest
  end.

(** [parts.join(sep)] for a one-character separator *)
Fixpoint join (sep : ascii) (parts : list string) : string :=
  match parts with
  | [] => ""
  | [p] => p
  | p :: rest => p +:+ String sep (join sep rest)
  end.

Definition invalid_credentials : Reply :=
  {| code := 401;
     payload := PlainJson (JsonErrorHint "Invalid credentials"
                             "Try username: testuser, password: password123");
     setCookies := [] |}.

Section Routes.

Variable env_JWT_SECRET : option string.

(** [jwt.sign(payload, secret, { expiresIn: "1h" })] *)
Variable jwt_sign : User → string → string.

Variable jwt_verify : string → string → string + User.

(** POST /auth/login-jwt *)
Definition login_jwt (c : Credentials.t) : Reply :=
  if negb (JS.truthy (Credentials.username c))
     || negb (JS.truthy (Credentials.password c)) then
    {| code := 400;
       payload := JsonErrorExampleBody "username and password are required"
                    "testuser" "password123";
       setCookies := [] |}
  else if differs (Credentials.username c) (demo_username DEMO_USER)
          || differs (Credentials.password c) (demo_password DEMO_USER) then
    invalid_credentials
  else
    let token :=
      jwt_sign {| username := demo_username DEMO_USER; role := demo_role DEMO_USER |}
               (Server.JWT_SECRET env_JWT_SECRET) in
    {| code := 200;
       payload := JsonLogin "Login successful. Use this token in Authorization header."
                    token
                    "Add header: Authorization: Bearer <token> to protected routes such as /students/protected";
       setCookies := [] |}.

(** GET /auth/me *)
Definition me (req : Request) : Reply :=
  guarded (Server.requireJwt env_JWT_SECRET jwt_verify req) (λ user,
    {| code := 200; payload := JsonMessageUser "You are authenticated with JWT!" user;
       setCookies := [] |}).

(** POST /auth/login-cookie *)
Definition login_cookie (c : Credentials.t) : Reply :=
  if negb (JS.truthy (Credentials.username c))
     || negb (JS.truthy (Credentials.password c)) then
    {| code := 400; payload := PlainJson (JsonError "username and password are required");
       setCookies := [] |}
  else if differs (Credentials.username c) (demo_username DEMO_USER)
          || differs (Credentials.password c) (demo_password DEMO_USER) then
    invalid_credentials
  else
    let sessionId := "dummy-session-id" in
    {| code := 200;
       payload :=
         JsonMessageNote
           "Cookie login successful. 'sessionId' cookie set. Use it for cookie-protected routes."
           "Check 'Cookies' tab in Postman.";
       setCookies := [SetCookie "sessionId" sessionId true "Lax"] |}.

(** GET /auth/me-cookie *)
Definition me_cookie (req : Request) : Reply :=
  guarded (Server.requireCookieLogin req) (λ user,
    {| code := 200; payload := JsonMessageUser "You are authenticated with a cookie!" user;
       setCookies := [] |}).

(** POST /auth/logout-cookie *)
Definition logout_cookie : Reply :=
  {| code := 200; payload := JsonMessage "Logged out cookie session.";
     setCookies := [ClearCookie "sessionId"] |}.

End Routes.

End Auth.

(** ** The data model's rules on a stored record *)

Module Data.

(** name and email non-empty text, age strictly positive *)
Definition well_formed (s : Student.t) : Prop :=
  Student.name s ≠ "" ∧ (0 < Student.age s)%Q ∧ Student.email s ≠ "".

Definition positive_age (s : Student.t) : Prop := (0 < Student.age s)%Q.

(** The body that sends a stored record back. *)
Definition body_of (s : Student.t) : Body.t :=
  Spec.typed_body (Student.name s) (Student.age s) (Student.email s) (Student.isActive s).

End Data.

(** ** More sample requests *)

Module Demo.

(** A signer whose tokens [Sample.verify] accepts. *)
Definition sign (payload : User) (secret : string) : string := "good".

(** [{"username":"testuser","password":"password123"}] *)
Definition credentials : Auth.Credentials.t :=
  {| Auth.Credentials.username := JS.Str "testuser";
     Auth.Credentials.password := JS.Str "password123" |}.

Definition bearer (token : string) : Request :=
  Sample.request (Some ("Bearer " +:+ token)) None.

(** A store whose only id is negative, and one whose only id is 2^53. *)
Definition eve : Student.t :=
  {| Student.id := -5; Student.name := "Eve"; Student.age := 30 # 1;
     Student.email := "eve@example.org"; Student.isActive := true |}.

Definition negative : Store := {| students := [eve]; file := [eve] |}.

Definition max : Student.t :=
  {| Student.id := 9007199254740992; Student.name := "Max"; Student.age := 30 # 1;
     Student.email := "max@example.org"; Student.isActive := true |}.

Definition huge : Store := {| students := [max]; file := [max] |}.

(** POST /students with a good token and Cid's body *)
Definition post_cid : Request :=
  {| authorization := Some "Bearer good"; sessionId := None;
     params_id := None; body := Sample.cid |}.

(** [{"name":"Bobby","age":30,"email":"rob@example.org","isActive":"yes"}] *)
Definition late_failure : Body.t :=
  {| Body.name := JS.Str "Bobby"; Body.age := JS.Number (30 # 1);
     Body.email := JS.Str "rob@example.org"; Body.isActive := JS.Str "yes" |}.

(** [{"name":5,"age":23,"isActive":"x"}] *)
Definition early_failure : Body.t :=
  {| Body.name := JS.Number (5 # 1); Body.age := JS.Number (23 # 1);
     Body.email := JS.Undefined; Body.isActive := JS.Str "x" |}.

(** [{"name":"","email":"rob@example.org"}] *)
Definition rename : Body.t :=
  {| Body.name := JS.Str ""; Body.age := JS.Undefined;
     Body.email := JS.Str "rob@example.org"; Body.isActive := JS.Undefined |}.

End Demo.

(** * Properties *)

(** ** Full validation *)

Section Validation.

Import Students.

Lemma text_invalid_spec v : text_invalid v = negb (Spec.nonempty_text v).
Proof.
  unfold text_invalid.
  destruct v as [| |b|q|s|]; simpl; try reflexivity; try apply orb_true_r.
  by destruct s.
Qed.

Lemma Qle_bool_0_spec q : Qle_bool q 0 = false ↔ (0 < q)%Q.
Proof.
  rewrite <- not_true_iff_false, Qle_bool_iff. split.
  - apply Qnot_le_lt.
  - apply Qlt_not_le.
Qed.

Lemma age_invalid_spec v : age_invalid v = negb (Spec.positive_number v).
Proof.
  destruct v as [| | |q| |]; try reflexivity.
  unfold age_invalid; simpl.
  destruct (Qlt_le_dec 0 q) as [Hlt|Hle]; simpl.
  - by apply Qle_bool_0_spec.
  - by apply Qle_bool_iff.
Qed.

Lemma isActive_invalid_spec v : isActive_invalid v = negb (Spec.boolean v).
Proof. by destruct v. Qed.

(** The collected list is the specification's list of violated rules. *)
Lemma validate_violations b : validate b = Spec.violations b.
Proof.
  unfold validate, push_if, Spec.violations, Spec.rules.
  rewrite !text_invalid_spec, age_invalid_spec, isActive_invalid_spec.
  rewrite !filter_cons, filter_nil; simpl.
  destruct (Spec.nonempty_text (Body.name b)), (Spec.positive_number (Body.age b)),
    (Spec.nonempty_text (Body.email b)), (Spec.boolean (Body.isActive b));
    repeat case_decide; simpl; congruence.
Qed.

(** A body passes validation exactly when it has the four field types. *)
Lemma validate_nil b :
  validate b = [] ↔
  ∃ name age email isActive,
    b = {| Body.name := JS.Str name; Body.age := JS.Number age;
           Body.email := JS.Str email; Body.isActive := JS.Bool isActive |}
    ∧ name ≠ "" ∧ (0 < age)%Q ∧ email ≠ "".
Proof.
  unfold validate, push_if.
  rewrite !text_invalid_spec, age_invalid_spec, isActive_invalid_spec.
  split.
  - destruct b as [n a e act]; simpl.
    destruct (Spec.nonempty_text n) eqn:Hn; [|by destruct (Spec.positive_number a),
      (Spec.nonempty_text e), (Spec.boolean act)].
    destruct (Spec.positive_number a) eqn:Ha; [|by destruct (Spec.nonempty_text e),
      (Spec.boolean act)].
    destruct (Spec.nonempty_text e) eqn:He; [|by destruct (Spec.boolean act)].
    destruct (Spec.boolean act) eqn:Hact; [|done].
    intros _.
    destruct n as [| | | |n|]; try discriminate.
    destruct a as [| | |a| |]; try discriminate.
    destruct e as [| | | |e|]; try discriminate.
    destruct act as [| |act| | |]; try discriminate.
    exists n, a, e, act. simpl in *.
    destruct (Qlt_le_dec 0 a); [|discriminate].
    split_and!; try done.
    + intros ->. discriminate.
    + intros ->. discriminate.
  - intros (n & a & e & act & -> & Hn & Ha & He); simpl.
    destruct (Qlt_le_dec 0 a) as [|Hle]; [|by apply Qle_not_lt in Hle].
    destruct n; [done|]. destruct e; [done|]. reflexivity.
Qed.

End Validation.

Section Handlers.

Variable toLowerCase : string → string.

Import Students.

(** ** Equations of the handlers *)

Lemma errors_length (errors : list string) :
  bool_decide (0 < length errors)%nat = false ↔ errors = [].
Proof.
  rewrite bool_decide_eq_false. destruct errors; simpl; split; intros; try done; lia.
Qed.

Lemma post_invalid b st :
  validate b ≠ [] → run (post_student toLowerCase b) st = (Spec.validation_failed b, st).
Proof.
  intros Hne. unfold post_student, run, Spec.validation_failed.
  rewrite <- validate_violations.
  destruct (bool_decide _) eqn:Hlen; [done|].
  by apply errors_length in Hlen.
Qed.

Lemma post_valid name age email isActive st :
  validate (Spec.typed_body name age email isActive) = [] →
  run (post_student toLowerCase (Spec.typed_body name age email isActive)) st =
  match list_find (same_email toLowerCase email) (students st) with
  | Some (_, existing) =>
      ({| status := 409;
          json := JsonErrorStudent "A student with this email already exists" existing |}, st)
  | None =>
      let newStudent :=
        {| Student.id := IEEE.add (maxId (students st)) 1; Student.name := name;
           Student.age := age; Student.email := email; Student.isActive := isActive |} in
      ({| status := 201; json := JsonMessageStudent "Student created" newStudent |},
       {| students := students st ++ [newStudent]; file := students st ++ [newStudent] |})
  end.
Proof.
  intros Hok. unfold post_student, run. rewrite Hok. simpl.
  unfold mbind, Handler_bind, getStudents; simpl.
  by destruct (list_find _ _) as [[i existing]|].
Qed.

Lemma put_nan b st :
  run (put_student toLowerCase None b) st = ({| status := 400; json := invalid_id |}, st).
Proof. reflexivity. Qed.

Lemma put_missing id b st :
  list_find (λ s, Student.id s = id) (students st) = None →
  run (put_student toLowerCase (Some id) b) st = ({| status := 404; json := not_found id |}, st).
Proof.
  intros Hnone. unfold put_student, run, mbind, Handler_bind, getStudents; simpl.
  by rewrite Hnone.
Qed.

Lemma put_invalid id index s b st :
  Spec.found (students st) id index s →
  validate b ≠ [] → run (put_student toLowerCase (Some id) b) st = (Spec.validation_failed b, st).
Proof.
  intros Hfound Hne.
  unfold put_student, run, mbind, Handler_bind, getStudents; simpl.
  rewrite Hfound. unfold Spec.validation_failed. rewrite <- validate_violations.
  destruct (bool_decide _) eqn:Hlen; [done|].
  by apply errors_length in Hlen.
Qed.

Lemma put_valid id index s name age email isActive st :
  Spec.found (students st) id index s →
  validate (Spec.typed_body name age email isActive) = [] →
  run (put_student toLowerCase (Some id) (Spec.typed_body name age email isActive)) st =
  match list_find (λ x, same_email toLowerCase email x ∧ Student.id x ≠ id) (students st) with
  | Some (_, existing) =>
      ({| status := 409;
          json := JsonErrorStudent "Another student with this email already exists" existing |},
       st)
  | None =>
      let updatedStudent :=
        {| Student.id := id; Student.name := name; Student.age := age;
           Student.email := email; Student.isActive := isActive |} in
      ({| status := 200; json := JsonMessageStudent "Student updated" updatedStudent |},
       {| students := <[index := updatedStudent]> (students st);
          file := <[index := updatedStudent]> (students st) |})
  end.
Proof.
  intros Hfound Hok.
  unfold put_student, run, mbind, Handler_bind, getStudents; simpl.
  rewrite Hfound, Hok. simpl.
  by destruct (list_find _ _) as [[i existing]|].
Qed.

Lemma delete_cases param st :
  run (delete_student param) st =
  match param with
  | None => ({| status := 400; json := invalid_id |}, st)
  | Some id =>
      match list_find (λ s, Student.id s = id) (students st) with
      | None => ({| status := 404; json := not_found id |}, st)
      | Some (index, deleted) =>
          ({| status := 200; json := JsonMessageStudent "Student deleted" deleted |},
           {| students := delete index (students st); file := delete index (students st) |})
      end
  end.
Proof.
  destruct param as [id|]; [|done].
  unfold delete_student, run, mbind, Handler_bind, getStudents; simpl.
  by destruct (list_find _ _) as [[i deleted]|].
Qed.

(** Updating the element at a position whose content is known. *)
Lemma alter_at {A} (f : A → A) (l : list A) i x :
  l !! i = Some x → alter f i l = <[i := f x]> l.
Proof.
  intros Hi. apply list_eq. intros j.
  destruct (decide (i = j)) as [<-|Hne].
  - rewrite list_lookup_alter_eq, Hi, list_lookup_insert_eq; [done|].
    by eapply lookup_lt_Some.
  - by rewrite list_lookup_alter_ne, list_lookup_insert_ne.
Qed.

(** A search is not affected by an update of an element that does not
    satisfy the predicate before or after. *)
Lemma list_find_insert_skip {A} (P : A → Prop) `{!∀ x, Decision (P x)} (l : list A) i x y :
  l !! i = Some x → ¬ P x → ¬ P y → list_find P (<[i := y]> l) = list_find P l.
Proof.
  revert i. induction l as [|z l IH]; intros [|i] Hi Hx Hy; simplify_eq/=.
  - by rewrite !decide_False.
  - by rewrite (IH i).
Qed.

Section PatchSteps.

Variables (id : Z) (index : nat) (s : Student.t) (st : Store).
Hypothesis Hat : students st !! index = Some s.
Hypothesis Hid : Student.id s = id.

Lemma mem_same : Spec.mem st index s = st.
Proof. unfold Spec.mem. rewrite list_insert_id by done. by destruct st. Qed.

Lemma mem_lookup x : students (Spec.mem st index x) !! index = Some x.
Proof. simpl. apply list_lookup_insert_eq. by eapply lookup_lt_Some. Qed.

Lemma assign_mem f x :
  assign index f (Spec.mem st index x) = (Continue tt, Spec.mem st index (f x)).
Proof.
  unfold assign, mbind, Handler_bind, getStudents, setStudents.
  cbn [fst snd students file Spec.mem].
  rewrite (alter_at f _ _ x) by apply mem_lookup.
  unfold Spec.mem; simpl. by rewrite list_insert_insert_eq.
Qed.

Lemma patch_name_step x v :
  patch_name index v (Spec.mem st index x) =
  if Spec.text_or_absent v then (Continue tt, Spec.mem st index (Spec.with_name v x))
  else (Replied {| status := 400; json := JsonError "Invalid 'name'. Must be a string." |},
        Spec.mem st index x).
Proof. destruct v; simpl; try done. apply assign_mem. Qed.

Lemma patch_age_step x v :
  patch_age index v (Spec.mem st index x) =
  if Spec.positive_or_absent v then (Continue tt, Spec.mem st index (Spec.with_age v x))
  else (Replied {| status := 400; json := JsonError "Invalid 'age'. Must be a positive number." |},
        Spec.mem st index x).
Proof.
  destruct v as [| | |q| |]; simpl; try done.
  destruct (Qlt_le_dec 0 q) as [Hlt|Hle].
  - apply Qle_bool_0_spec in Hlt. rewrite Hlt. apply assign_mem.
  - apply Qle_bool_iff in Hle. by rewrite Hle.
Qed.

Lemma patch_email_step x v :
  Student.id x = id →
  patch_email toLowerCase id index v (Spec.mem st index x) =
  if Spec.text_or_absent v then
    match Spec.conflict toLowerCase id v (students st) with
    | Some existing =>
        (Replied {| status := 409;
                    json := JsonErrorStudent "Another student with this email already exists"
                              existing |},
         Spec.mem st index x)
    | None => (Continue tt, Spec.mem st index (Spec.with_email v x))
    end
  else (Replied {| status := 400; json := JsonError "Invalid 'email'. Must be a string." |},
        Spec.mem st index x).
Proof.
  intros Hx. destruct v as [| | | |email|]; simpl; try done.
  unfold mbind at 1. unfold Handler_bind, getStudents.
  cbn [fst snd students Spec.mem].
  rewrite (list_find_insert_skip _ _ _ s) by (done || tauto).
  destruct (list_find _ _) as [[i existing]|]; simpl; [done|].
  apply assign_mem.
Qed.

Lemma patch_isActive_step x v :
  patch_isActive index v (Spec.mem st index x) =
  if Spec.boolean_or_absent v then (Continue tt, Spec.mem st index (Spec.with_isActive v x))
  else (Replied {| status := 400; json := JsonError "Invalid 'isActive'. Must be a boolean." |},
        Spec.mem st index x).
Proof. destruct v; simpl; try done. apply assign_mem. Qed.

Lemma with_name_id v x : Student.id (Spec.with_name v x) = Student.id x.
Proof. by destruct v. Qed.

Lemma with_age_id v x : Student.id (Spec.with_age v x) = Student.id x.
Proof. by destruct v. Qed.

Lemma with_email_id v x : Student.id (Spec.with_email v x) = Student.id x.
Proof. by destruct v. Qed.

Lemma with_isActive_id v x : Student.id (Spec.with_isActive v x) = Student.id x.
Proof. by destruct v. Qed.

End PatchSteps.

Lemma found_lookup l id index s :
  Spec.found l id index s → l !! index = Some s ∧ Student.id s = id.
Proof. intros (? & ? & _)%list_find_Some. done. Qed.

Lemma patch_nan b st :
  run (patch_student toLowerCase None b) st = ({| status := 400; json := invalid_id |}, st).
Proof. reflexivity. Qed.

Lemma patch_missing id b st :
  list_find (λ s, Student.id s = id) (students st) = None →
  run (patch_student toLowerCase (Some id) b) st =
  ({| status := 404; json := not_found id |}, st).
Proof.
  intros Hnone. unfold patch_student, run, mbind, Handler_bind, getStudents; simpl.
  by rewrite Hnone.
Qed.

(** The whole PATCH handler on an existing id, step by step. *)
Lemma patch_cases id index s b st :
  Spec.found (students st) id index s →
  let s1 := Spec.with_name (Body.name b) s in
  let s2 := Spec.with_age (Body.age b) s1 in
  let s3 := Spec.with_email (Body.email b) s2 in
  let s4 := Spec.with_isActive (Body.isActive b) s3 in
  run (patch_student toLowerCase (Some id) b) st =
  if negb (Spec.text_or_absent (Body.name b)) then
    ({| status := 400; json := JsonError "Invalid 'name'. Must be a string." |}, st)
  else if negb (Spec.positive_or_absent (Body.age b)) then
    ({| status := 400; json := JsonError "Invalid 'age'. Must be a positive number." |},
     Spec.mem st index s1)
  else if negb (Spec.text_or_absent (Body.email b)) then
    ({| status := 400; json := JsonError "Invalid 'email'. Must be a string." |},
     Spec.mem st index s2)
  else
    match Spec.conflict toLowerCase id (Body.email b) (students st) with
    | Some existing =>
        ({| status := 409;
            json := JsonErrorStudent "Another student with this email already exists"
                      existing |},
         Spec.mem st index s2)
    | None =>
        if negb (Spec.boolean_or_absent (Body.isActive b)) then
          ({| status := 400; json := JsonError "Invalid 'isActive'. Must be a boolean." |},
           Spec.mem st index s3)
        else
          ({| status := 200; json := JsonMessageStudent "Student partially updated" s4 |},
           {| students := <[index := s4]> (students st);
              file := <[index := s4]> (students st) |})
    end.
Proof.
  intros Hfound s1 s2 s3 s4.
  destruct (found_lookup _ _ _ _ Hfound) as [Hat Hid].
  unfold patch_student, run. unfold mbind at 1. unfold Handler_bind at 1.
  unfold getStudents at 1. cbn [fst snd]. rewrite Hfound.
  rewrite <- (mem_same index s st Hat) at 1.
  unfold mbind, Handler_bind.
  rewrite (patch_name_step index s st Hat).
  destruct (Spec.text_or_absent (Body.name b)); cbn [negb];
    [|by rewrite (mem_same index s st Hat)].
  rewrite (patch_age_step index s st Hat). fold s1.
  destruct (Spec.positive_or_absent (Body.age b)); cbn [negb]; [|done].
  fold s2.
  rewrite (patch_email_step id index s st Hat Hid)
    by (unfold s2, s1; by rewrite with_age_id, with_name_id).
  destruct (Spec.text_or_absent (Body.email b)); cbn [negb]; [|done].
  destruct (Spec.conflict _ _ _ _) as [existing|]; [done|].
  fold s3. rewrite (patch_isActive_step index s st Hat).
  destruct (Spec.boolean_or_absent (Body.isActive b)); cbn [negb]; [|done].
  fold s4. unfold saveStudents, deref, getStudents, mbind, Handler_bind.
  cbn [fst snd students file Spec.mem].
  rewrite list_lookup_insert_eq by (by eapply lookup_lt_Some).
  reflexivity.
Qed.

(** ** The next id *)

Lemma foldr_max_acc (a x : Z) (ids : list Z) :
  foldr Z.max (Z.max a x) ids = Z.max x (foldr Z.max a ids).
Proof. induction ids as [|y ids IH]; simpl; lia. Qed.

(** The [reduce] of the create handler computes [max(ids, default 0)]. *)
Lemma maxId_max_default l : maxId l = Spec.max_default 0 (Student.id <$> l).
Proof.
  unfold maxId, Spec.max_default. generalize 0.
  induction l as [|x l IH]; intros acc; simpl; [done|].
  rewrite IH. destruct (Z.gtb_spec (Student.id x) acc).
  - rewrite <- (Z.max_r acc (Student.id x)) at 1 by lia. apply foldr_max_acc.
  - rewrite <- (Z.max_l acc (Student.id x)) at 1 by lia. apply foldr_max_acc.
Qed.

Lemma max_default_upper (d : Z) (ids : list Z) (x : Z) :
  x ∈ ids → (x ≤ Spec.max_default d ids)%Z.
Proof.
  unfold Spec.max_default.
  induction ids as [|y ids IH]; simpl; [by intros ?%elem_of_nil|].
  intros [->|Hin]%elem_of_cons; [lia|]. specialize (IH Hin). lia.
Qed.

Lemma max_default_attained (d : Z) (ids : list Z) :
  Spec.max_default d ids = d ∨ Spec.max_default d ids ∈ ids.
Proof.
  unfold Spec.max_default.
  induction ids as [|y ids IH]; simpl; [by left|].
  destruct (Z.max_spec y (foldr Z.max d ids)) as [[_ ->]|[_ ->]].
  - destruct IH as [->|Hin]; [by left|]. right. by apply elem_of_cons; right.
  - right. apply elem_of_cons. by left.
Qed.

(** ** Uniqueness under the list operations of the handlers *)

Section Unique.

Context {K : Type} (key : Student.t → K).

(** [students.push(x)] *)
Lemma unique_by_push l x :
  Spec.unique_by key l → (∀ y, y ∈ l → key y ≠ key x) →
  Spec.unique_by key (l ++ [x]).
Proof.
  intros Hl Hx i j a b Hi Hj Hkey.
  apply lookup_snoc_Some in Hi as [[Hi Ha]|[-> <-]];
    apply lookup_snoc_Some in Hj as [[Hj Hb]|[-> <-]].
  - by eapply Hl.
  - destruct (Hx a); [by eapply list_elem_of_lookup_2|done].
  - destruct (Hx b); [by eapply list_elem_of_lookup_2|done].
  - done.
Qed.

(** [students[i] = x], or a field assignment on [students[i]] *)
Lemma unique_by_insert l i x :
  Spec.unique_by key l →
  (∀ j y, l !! j = Some y → j ≠ i → key y ≠ key x) →
  Spec.unique_by key (<[i := x]> l).
Proof.
  intros Hl Hx j1 j2 a b H1 H2 Hkey.
  apply list_lookup_insert_Some in H1 as [(-> & -> & ?)|[Hne1 H1]];
    apply list_lookup_insert_Some in H2 as [(E & -> & ?)|[Hne2 H2]]; try done.
  - destruct (Hx j2 b); auto.
  - destruct (Hx j1 a); auto.
  - by eapply Hl.
Qed.

Lemma unique_by_insert_same l i s x :
  l !! i = Some s → key x = key s →
  Spec.unique_by key l → Spec.unique_by key (<[i := x]> l).
Proof.
  intros Hi Hkey Hl. apply unique_by_insert; [done|].
  intros j y Hj Hne Heq. apply Hne. eapply Hl; eauto. congruence.
Qed.

(** [students.splice(i, 1)] *)
Lemma unique_by_delete l i : Spec.unique_by key l → Spec.unique_by key (delete i l).
Proof.
  intros Hl j1 j2 a b H1 H2 Hkey.
  rewrite list_lookup_delete in H1, H2.
  specialize (Hl _ _ _ _ H1 H2 Hkey).
  repeat case_decide; lia.
Qed.

End Unique.

(** ** Create *)

(** The sum of doubles on a few integers: exact up to 2^53, then to the
    nearest double, ties to the even significand. *)
Example round_examples :
  IEEE.add 41 1 = 42
  ∧ IEEE.add (2 ^ 53 - 1) 1 = 2 ^ 53
  ∧ IEEE.add (2 ^ 53) 1 = 2 ^ 53
  ∧ IEEE.add (2 ^ 53 + 2) 1 = 2 ^ 53 + 4
  ∧ IEEE.add (2 ^ 54) 1 = 2 ^ 54
  ∧ IEEE.round (2 ^ 54 + 6) = 2 ^ 54 + 8
  ∧ IEEE.round (- (2 ^ 53 + 1)) = - 2 ^ 53.
Proof. repeat split. Qed.

(** Up to 2^53 in magnitude the integers are doubles. *)
Lemma round_small (z : Z) : (- 2 ^ 53 ≤ z ≤ 2 ^ 53)%Z → IEEE.round z = z.
Proof.
  intros Hz. unfold IEEE.round.
  rewrite (proj2 (Z.leb_le (Z.abs z) (2 ^ 53))); [done|].
  change (2 ^ 53)%Z with 9007199254740992%Z in *. lia.
Qed.

Lemma max_default_lower (d : Z) (ids : list Z) : (d ≤ Spec.max_default d ids)%Z.
Proof. unfold Spec.max_default. induction ids; simpl; lia. Qed.

Lemma max_default_below (d bound : Z) (ids : list Z) :
  (d < bound)%Z → Forall (λ x, (x < bound)%Z) ids →
  (Spec.max_default d ids < bound)%Z.
Proof.
  intros Hd Hids. unfold Spec.max_default.
  induction Hids as [|x ids Hx _ IH]; simpl; lia.
Qed.

(** While every id is below 2^53 the sum [maxId + 1] is exact. *)
Lemma next_id l :
  Terms.safe_ids l →
  IEEE.add (maxId l) 1 = Spec.max_default 0 (Student.id <$> l) + 1.
Proof.
  intros Hsafe. rewrite maxId_max_default. unfold IEEE.add.
  pose proof (max_default_lower 0 (Student.id <$> l)) as Hlow.
  assert (Spec.max_default 0 (Student.id <$> l) < 2 ^ 53)%Z as Hup.
  { apply max_default_below; [done|]. by apply Forall_fmap. }
  apply round_small. change (2 ^ 53)%Z with 9007199254740992%Z in *. lia.
Qed.

(** C1 (amended). On a store whose ids are all below 2^53, a valid create
    (the body passes validation and no stored email equals the payload
    email case-insensitively) answers 201 with a new record made of exactly
    the payload's name, age, email and isActive and of the id one plus the
    largest of 0 and the ids of the store; the record is appended to the
    store and the store is written to the file. That id is 1 on an empty
    store, exceeds every id present before the call, and is one plus the
    largest id present whenever some id present is not negative. *)
Theorem create_assigns_next_id (st : Store)
    (name : string) (age : Q) (email : string) (isActive : bool) :
  name ≠ "" → (0 < age)%Q → email ≠ "" →
  ¬ Terms.held toLowerCase (students st) email →
  Terms.safe_ids (students st) →
  let ids := Student.id <$> students st in
  let newStudent :=
    {| Student.id := Spec.max_default 0 ids + 1; Student.name := name;
       Student.age := age; Student.email := email; Student.isActive := isActive |} in
  run (post_student toLowerCase (Spec.typed_body name age email isActive)) st =
    ({| status := 201; json := JsonMessageStudent "Student created" newStudent |},
     {| students := students st ++ [newStudent]; file := students st ++ [newStudent] |})
  ∧ (students st = [] → Student.id newStudent = 1)
  ∧ (∀ x, x ∈ students st → (Student.id x < Student.id newStudent)%Z)
  ∧ ((∃ x, x ∈ students st ∧ (0 ≤ Student.id x)%Z) →
     ∃ x, x ∈ students st ∧ Student.id newStudent = Student.id x + 1
          ∧ ∀ y, y ∈ students st → (Student.id y ≤ Student.id x)%Z).
Proof.
  intros Hname Hage Hemail Hfresh Hsafe ids newStudent.
  assert (Hok : validate (Spec.typed_body name age email isActive) = []).
  { apply validate_nil. by exists name, age, email, isActive. }
  split_and!.
  - rewrite post_valid by done.
    rewrite (proj2 (list_find_None _ _)).
    + simpl. by rewrite next_id.
    + apply Forall_forall. intros x Hx Hsame. apply Hfresh. by exists x.
  - subst ids newStudent. intros ->. reflexivity.
  - intros x Hx. simpl.
    assert (Student.id x ≤ Spec.max_default 0 ids)%Z; [|lia].
    apply max_default_upper. subst ids. by apply list_elem_of_fmap_2.
  - intros (x0 & Hx0 & Hpos). simpl.
    destruct (max_default_attained 0 ids) as [Hzero|Hin].
    + exists x0. assert (Student.id x0 ≤ Spec.max_default 0 ids)%Z.
      { apply max_default_upper. subst ids. by apply list_elem_of_fmap_2. }
      split_and!; [done|lia|]. intros y Hy.
      assert (Student.id y ≤ Spec.max_default 0 ids)%Z; [|lia].
      apply max_default_upper. subst ids. by apply list_elem_of_fmap_2.
    + subst ids. apply list_elem_of_fmap in Hin as (x & Hx & Hin).
      exists x. split_and!; [done|lia|]. intros y Hy. rewrite <- Hx.
      apply max_default_upper. by apply list_elem_of_fmap_2.
Qed.

(** ** Store invariants *)

Lemma maxId_upper l x : x ∈ l → (Student.id x ≤ maxId l)%Z.
Proof.
  intros Hx. rewrite maxId_max_default.
  apply max_default_upper. by apply list_elem_of_fmap_2.
Qed.

(** An update at the found position that keeps the id, and whose email is
    held by no record with another id, keeps both invariants. *)
Lemma store_ok_insert l id index s x :
  Spec.found l id index s → Student.id x = id →
  (∀ y, y ∈ l → same_email toLowerCase (Student.email x) y → Student.id y = id) →
  Spec.store_ok toLowerCase l → Spec.store_ok toLowerCase (<[index := x]> l).
Proof.
  intros [Hat Hid]%found_lookup Hx Hmail [Hemails Hids]. split.
  - apply unique_by_insert; [done|].
    intros j y Hj Hne Heq. apply Hne.
    apply (Hids j index y s); [done..|].
    rewrite Hid. apply Hmail; [by eapply list_elem_of_lookup_2|done].
  - apply (unique_by_insert_same _ _ _ s); [done|congruence|done].
Qed.

(** Keeping the email of the found record is a special case. *)
Lemma store_ok_insert_same_email l id index s x :
  Spec.found l id index s → Student.id x = id → Student.email x = Student.email s →
  Spec.store_ok toLowerCase l → Spec.store_ok toLowerCase (<[index := x]> l).
Proof.
  intros Hfound Hx Hmail Hok. eapply store_ok_insert; [done..| |done].
  destruct (found_lookup _ _ _ _ Hfound) as [Hat Hid], Hok as [Hemails _].
  intros y [j Hj]%list_elem_of_lookup_1 Hsame.
  assert (j = index) as ->; [|congruence].
  apply (Hemails j index y s); [done..|].
  unfold same_email in Hsame. congruence.
Qed.

(** Changing fields other than id and email of the updated record. *)
Lemma store_ok_reinsert l index s x x' :
  l !! index = Some s →
  Student.id x' = Student.id x → Student.email x' = Student.email x →
  Spec.store_ok toLowerCase (<[index := x]> l) →
  Spec.store_ok toLowerCase (<[index := x']> l).
Proof.
  intros Hat Hid Hmail [Hemails Hids].
  rewrite <- (list_insert_insert_eq l index x' x).
  assert (<[index := x]> l !! index = Some x) as Hx.
  { apply list_lookup_insert_eq. by eapply lookup_lt_Some. }
  split; eapply unique_by_insert_same; eauto. simpl. congruence.
Qed.

Lemma no_conflict id email l :
  list_find (λ s, same_email toLowerCase email s ∧ Student.id s ≠ id) l = None →
  ∀ y, y ∈ l → same_email toLowerCase email y → Student.id y = id.
Proof.
  intros Hnone%list_find_None y Hy Hsame.
  rewrite Forall_forall in Hnone. specialize (Hnone y Hy).
  destruct (decide (Student.id y = id)); [done|tauto].
Qed.

Lemma post_preserves b st :
  Spec.store_ok toLowerCase (students st) → Terms.safe_ids (students st) →
  Spec.store_ok toLowerCase (students (run (post_student toLowerCase b) st).2).
Proof.
  intros Hok Hsafe. destruct (decide (validate b = [])) as [Hnil|Hne];
    [|by rewrite post_invalid].
  pose proof Hnil as (name & age & email & isActive & -> & _)%validate_nil.
  fold (Spec.typed_body name age email isActive) in *.
  rewrite post_valid by done.
  destruct (list_find _ _) as [[i existing]|] eqn:Hfind; [done|].
  rewrite list_find_None, Forall_forall in Hfind.
  destruct Hok as [Hemails Hids]. split; simpl.
  - apply unique_by_push; [done|]. intros y Hy. by apply Hfind.
  - apply unique_by_push; [done|]. intros y Hy%maxId_upper. simpl.
    rewrite next_id, <- maxId_max_default by done. lia.
Qed.

Lemma put_preserves param b st :
  Spec.store_ok toLowerCase (students st) →
  Spec.store_ok toLowerCase (students (run (put_student toLowerCase param b) st).2).
Proof.
  intros Hok. destruct param as [id|]; [|done].
  destruct (list_find (λ s, Student.id s = id) (students st)) as [[index s]|] eqn:Hfound;
    [|by rewrite put_missing].
  destruct (decide (validate b = [])) as [Hnil|Hne];
    [|by rewrite (put_invalid id index s)].
  pose proof Hnil as (name & age & email & isActive & -> & _)%validate_nil.
  fold (Spec.typed_body name age email isActive) in *.
  rewrite (put_valid id index s) by done.
  destruct (list_find (λ x, _ ∧ _) _) as [[i existing]|] eqn:Hfind; [done|].
  simpl. eapply store_ok_insert; [done..| |done].
  simpl. by apply no_conflict.
Qed.

Lemma patch_preserves param b st :
  Spec.store_ok toLowerCase (students st) →
  Spec.store_ok toLowerCase (students (run (patch_student toLowerCase param b) st).2).
Proof.
  intros Hok. destruct param as [id|]; [|done].
  destruct (list_find (λ s, Student.id s = id) (students st)) as [[index s]|] eqn:Hfound;
    [|by rewrite patch_missing].
  rewrite (patch_cases id index s) by done.
  destruct (found_lookup _ _ _ _ Hfound) as [Hat Hid].
  set (s1 := Spec.with_name (Body.name b) s).
  set (s2 := Spec.with_age (Body.age b) s1).
  assert (H1 : Student.id s1 = id ∧ Student.email s1 = Student.email s).
  { unfold s1. by destruct (Body.name b). }
  assert (H2 : Student.id s2 = id ∧ Student.email s2 = Student.email s).
  { unfold s2. by destruct (Body.age b). }
  assert (Hok1 : Spec.store_ok toLowerCase (<[index := s1]> (students st))).
  { by eapply store_ok_insert_same_email; [done|apply H1..|]. }
  assert (Hok2 : Spec.store_ok toLowerCase (<[index := s2]> (students st))).
  { by eapply store_ok_insert_same_email; [done|apply H2..|]. }
  destruct (Spec.text_or_absent (Body.name b)); [|done].
  destruct (Spec.positive_or_absent (Body.age b)); [|done].
  destruct (Spec.text_or_absent (Body.email b)); [|done].
  simpl.
  destruct (Spec.conflict _ _ _ _) as [existing|] eqn:Hconflict; [done|].
  assert (Hok3 : Spec.store_ok toLowerCase
                   (<[index := Spec.with_email (Body.email b) s2]> (students st))).
  { destruct (Body.email b) as [| | | |email|]; try done.
    eapply store_ok_insert; [done|apply H2| |done]. simpl.
    apply no_conflict. simpl in Hconflict.
    by apply fmap_None in Hconflict. }
  destruct (Spec.boolean_or_absent (Body.isActive b)); [|done].
  simpl. eapply store_ok_reinsert; [done| | |done]; by destruct (Body.isActive b).
Qed.

Lemma delete_preserves param st :
  Spec.store_ok toLowerCase (students st) →
  Spec.store_ok toLowerCase (students (run (delete_student param) st).2).
Proof.
  intros [Hemails Hids]. rewrite delete_cases.
  destruct param as [id|]; [|done].
  destruct (list_find _ _) as [[index deleted]|]; [|done].
  split; by apply unique_by_delete.
Qed.

(** C2 (amended). From a store in which no two students have
    case-insensitively equal emails and all ids are distinct, each of the
    protected routes replace, patch and delete, and create when every id of
    the store is below 2^53, whether the guard rejects the request, the
    handler answers an error or the operation succeeds, leaves a store in
    which both invariants hold. *)
Theorem operations_preserve_invariants
    (requireJwt : Request → Guard) (req : Request) (st : Store) :
  Spec.store_ok toLowerCase (students st) →
  (Terms.safe_ids (students st) →
   Spec.store_ok toLowerCase (students (POST toLowerCase requireJwt req st).2))
  ∧ Spec.store_ok toLowerCase (students (PUT toLowerCase requireJwt req st).2)
  ∧ Spec.store_ok toLowerCase (students (PATCH toLowerCase requireJwt req st).2)
  ∧ Spec.store_ok toLowerCase (students (DELETE requireJwt req st).2).
Proof.
  intros Hok. unfold POST, PUT, PATCH, DELETE, protect.
  destruct (requireJwt req) as [r|user]; [done|].
  split_and!.
  - intros Hsafe. by apply post_preserves.
  - by apply put_preserves.
  - by apply patch_preserves.
  - by apply delete_preserves.
Qed.

(** ** Validation and duplicate detection *)

(** C5. Full validation, on create and on replace of an existing id: the
    list the handler collects is the list of the violated rules (name a
    non-empty string, age a present number strictly greater than 0, email a
    non-empty string, isActive a boolean), one message per violated rule in
    that fixed order; the request is answered 400 with that complete list,
    and the store is left as it was, when the list is not empty, and is not
    answered 400 when the list is empty. *)
Theorem full_validation_collects_violations (st : Store) (b : Body.t) :
  validate b = Spec.violations b
  ∧ (Spec.violations b ≠ [] →
     run (post_student toLowerCase b) st = (Spec.validation_failed b, st))
  ∧ (Spec.violations b = [] →
     status (run (post_student toLowerCase b) st).1 ≠ 400%nat)
  ∧ (∀ id index s, Spec.found (students st) id index s →
       (Spec.violations b ≠ [] →
        run (put_student toLowerCase (Some id) b) st = (Spec.validation_failed b, st))
       ∧ (Spec.violations b = [] →
          status (run (put_student toLowerCase (Some id) b) st).1 ≠ 400%nat)).
Proof.
  rewrite <- validate_violations. split_and!; [done|by apply post_invalid| |].
  - intros Hnil.
    pose proof Hnil as (name & age & email & isActive & -> & _)%validate_nil.
    fold (Spec.typed_body name age email isActive) in *.
    rewrite post_valid by done.
    by destruct (list_find _ _) as [[i existing]|].
  - intros id index s Hfound. split; [by apply (put_invalid id index s)|].
    intros Hnil.
    pose proof Hnil as (name & age & email & isActive & -> & _)%validate_nil.
    fold (Spec.typed_body name age email isActive) in *.
    rewrite (put_valid id index s) by done.
    by destruct (list_find (λ x, _ ∧ _) _) as [[i existing]|].
Qed.

Lemma conflict_Some id v l existing :
  Spec.conflict toLowerCase id v l = Some existing →
  ∃ email, v = JS.Str email ∧ existing ∈ l
           ∧ same_email toLowerCase email existing ∧ Student.id existing ≠ id.
Proof.
  destruct v as [| | | |email|]; try done. simpl.
  intros ([i x] & (Hi & [Hsame Hid] & _)%list_find_Some & ->)%fmap_Some.
  exists email. split_and!; try done. by eapply list_elem_of_lookup_2.
Qed.

Lemma conflict_None id email l :
  Spec.conflict toLowerCase id (JS.Str email) l = None →
  ¬ ∃ x, x ∈ l ∧ same_email toLowerCase email x ∧ Student.id x ≠ id.
Proof.
  simpl. intros Hnone%fmap_None (x & Hx & Hsame & Hne).
  by apply Hne, (no_conflict id email l).
Qed.

(** Detection by the handlers is the case-insensitive comparison. *)
Lemma find_held email l :
  is_Some (list_find (same_email toLowerCase email) l) ↔ Terms.held toLowerCase l email.
Proof.
  split.
  - intros [[i x] (Hi%list_elem_of_lookup_2 & Hsame & _)%list_find_Some]. by exists x.
  - intros (x & Hx & Hsame).
    destruct (list_find (same_email toLowerCase email) l) as [[i y]|] eqn:Hfind; [done|].
    rewrite list_find_None, Forall_forall in Hfind. by destruct (Hfind x).
Qed.

Lemma find_held_by_other id email l :
  is_Some (list_find (λ s, same_email toLowerCase email s ∧ Student.id s ≠ id) l)
  ↔ Terms.held_by_other toLowerCase l id email.
Proof.
  split.
  - intros [[i x] (Hi%list_elem_of_lookup_2 & [Hsame Hne] & _)%list_find_Some].
    by exists x.
  - intros (x & Hx & Hsame & Hne).
    destruct (list_find _ l) as [[i y]|] eqn:Hfind; [done|].
    exfalso. by apply Hne, (no_conflict id email l).
Qed.

Lemma conflict_taken id v l :
  is_Some (Spec.conflict toLowerCase id v l) ↔ Terms.taken toLowerCase l id v.
Proof.
  split.
  - intros [existing (email & -> & Hin & Hsame & Hne)%conflict_Some].
    exists email. split; [done|]. by exists existing.
  - intros (email & -> & Hheld). apply find_held_by_other in Hheld as [[i x] Hfind].
    simpl. rewrite Hfind. by eexists.
Qed.

(** C3. Duplicate-email detection. A create whose body passes validation is
    answered 409 exactly when some stored record has the payload email up to
    case; the response then carries such a record and the store is
    unchanged. A replace of an existing id whose body passes validation is
    answered 409 exactly when some record with another id has the payload
    email up to case. A patch of an existing id is answered 409 only when
    the email field is present and some record with another id has it up to
    case, and it is answered 409 whenever that holds and the name and age
    fields are absent or valid; it is never answered 409 when the email
    field is absent. *)
Theorem duplicate_email_detection (st : Store) :
  (∀ name age email isActive,
     Spec.violations (Spec.typed_body name age email isActive) = [] →
     let out := run (post_student toLowerCase (Spec.typed_body name age email isActive)) st in
     (status out.1 = 409%nat ↔ Terms.held toLowerCase (students st) email)
     ∧ (status out.1 = 409%nat →
        out.2 = st ∧
        ∃ x, x ∈ students st ∧ Terms.ci_equal toLowerCase (Student.email x) email ∧
             json out.1 = JsonErrorStudent "A student with this email already exists" x))
  ∧ (∀ id index s name age email isActive,
       Spec.found (students st) id index s →
       Spec.violations (Spec.typed_body name age email isActive) = [] →
       let out :=
         run (put_student toLowerCase (Some id) (Spec.typed_body name age email isActive)) st in
       (status out.1 = 409%nat ↔ Terms.held_by_other toLowerCase (students st) id email)
       ∧ (status out.1 = 409%nat →
          out.2 = st ∧
          ∃ x, x ∈ students st ∧ Terms.ci_equal toLowerCase (Student.email x) email ∧
               Student.id x ≠ id ∧
               json out.1
               = JsonErrorStudent "Another student with this email already exists" x))
  ∧ (∀ id index s b,
       Spec.found (students st) id index s →
       let out := run (patch_student toLowerCase (Some id) b) st in
       (status out.1 = 409%nat → Terms.taken toLowerCase (students st) id (Body.email b))
       ∧ (Spec.text_or_absent (Body.name b) = true →
          Spec.positive_or_absent (Body.age b) = true →
          Terms.taken toLowerCase (students st) id (Body.email b) →
          status out.1 = 409%nat)
       ∧ (Body.email b = JS.Undefined → status out.1 ≠ 409%nat)).
Proof.
  split_and!.
  - intros name age email isActive Hnil out. subst out.
    rewrite <- validate_violations in Hnil. rewrite post_valid by done.
    rewrite <- find_held.
    destruct (list_find (same_email toLowerCase email) (students st))
      as [[i existing]|] eqn:Hfind; simpl.
    + apply list_find_Some in Hfind as (Hi%list_elem_of_lookup_2 & Hsame & _).
      split; [by split; eauto|]. intros _. split; [done|]. by exists existing.
    + split; [|done]. split; [done|]. by intros [? ?].
  - intros id index s name age email isActive Hfound Hnil out. subst out.
    rewrite <- validate_violations in Hnil. rewrite (put_valid id index s) by done.
    rewrite <- find_held_by_other.
    destruct (list_find (λ x, _ ∧ _) _) as [[i existing]|] eqn:Hfind; simpl.
    + apply list_find_Some in Hfind as (Hi%list_elem_of_lookup_2 & [Hsame Hne] & _).
      split; [by split; eauto|]. intros _. split; [done|]. by exists existing.
    + split; [|done]. split; [done|]. by intros [? ?].
  - intros id index s b Hfound out. subst out.
    rewrite (patch_cases id index s) by done.
    rewrite <- conflict_taken.
    split_and!.
    + destruct (Spec.text_or_absent (Body.name b)); [|done].
      destruct (Spec.positive_or_absent (Body.age b)); [|done].
      destruct (Spec.text_or_absent (Body.email b)); [|done].
      simpl.
      destruct (Spec.conflict _ _ _ _) as [existing|] eqn:Hconflict; [by eauto|].
      by destruct (Spec.boolean_or_absent (Body.isActive b)).
    + intros -> -> [existing Hconflict].
      pose proof Hconflict as (email & Hemail & _)%conflict_Some.
      by rewrite Hconflict, Hemail.
    + intros ->.
      destruct (Spec.text_or_absent (Body.name b)); [|done].
      destruct (Spec.positive_or_absent (Body.age b)); [|done].
      simpl. by destruct (Spec.boolean_or_absent (Body.isActive b)).
Qed.

(** ** Partial update *)

(** C6 (amended). Partial update of an existing id validates each present
    field by type, in the order name, age, email, isActive: name and email
    must be strings (the empty string passes), age a number strictly
    greater than 0, isActive a boolean. The handler answers 400 for the
    first field that is present and invalid, with the message of that field
    alone, except that a present email that a record with another id has, up
    to case, is answered 409 with that record at the email step, before
    isActive is looked at. When every present field is valid and no record
    with another id has the payload email, it answers 200 with the record
    in which exactly the present fields are overwritten, stores it at the
    same position and writes the file; absent fields and the id are
    untouched. *)
Theorem patch_validates_present_fields
    (st : Store) (id : Z) (index : nat) (s : Student.t) (b : Body.t) :
  Spec.found (students st) id index s →
  let out := run (patch_student toLowerCase (Some id) b) st in
  let s' := Spec.patched b s in
  let taken := Terms.taken toLowerCase (students st) id (Body.email b) in
  (Spec.text_or_absent (Body.name b) = false →
   out.1 = {| status := 400; json := JsonError "Invalid 'name'. Must be a string." |})
  ∧ (Spec.text_or_absent (Body.name b) = true →
     Spec.positive_or_absent (Body.age b) = false →
     out.1 = {| status := 400; json := JsonError "Invalid 'age'. Must be a positive number." |})
  ∧ (Spec.text_or_absent (Body.name b) = true →
     Spec.positive_or_absent (Body.age b) = true →
     Spec.text_or_absent (Body.email b) = false →
     out.1 = {| status := 400; json := JsonError "Invalid 'email'. Must be a string." |})
  ∧ (Spec.text_or_absent (Body.name b) = true →
     Spec.positive_or_absent (Body.age b) = true →
     taken →
     ∃ existing,
       existing ∈ students st ∧ Student.id existing ≠ id
       ∧ (∀ email, Body.email b = JS.Str email →
            Terms.ci_equal toLowerCase (Student.email existing) email)
       ∧ out.1 = {| status := 409;
                    json := JsonErrorStudent
                              "Another student with this email already exists" existing |})
  ∧ (Spec.text_or_absent (Body.name b) = true →
     Spec.positive_or_absent (Body.age b) = true →
     Spec.text_or_absent (Body.email b) = true →
     ¬ taken →
     Spec.boolean_or_absent (Body.isActive b) = false →
     out.1 = {| status := 400; json := JsonError "Invalid 'isActive'. Must be a boolean." |})
  ∧ (Spec.text_or_absent (Body.name b) = true →
     Spec.positive_or_absent (Body.age b) = true →
     Spec.text_or_absent (Body.email b) = true →
     ¬ taken →
     Spec.boolean_or_absent (Body.isActive b) = true →
     out = ({| status := 200; json := JsonMessageStudent "Student partially updated" s' |},
            {| students := <[index := s']> (students st);
               file := <[index := s']> (students st) |}))
  ∧ Student.id s' = Student.id s
  ∧ (Body.name b = JS.Undefined → Student.name s' = Student.name s)
  ∧ (Body.age b = JS.Undefined → Student.age s' = Student.age s)
  ∧ (Body.email b = JS.Undefined → Student.email s' = Student.email s)
  ∧ (Body.isActive b = JS.Undefined → Student.isActive s' = Student.isActive s)
  ∧ (∀ v, Body.name b = JS.Str v → Student.name s' = v)
  ∧ (∀ v, Body.age b = JS.Number v → Student.age s' = v)
  ∧ (∀ v, Body.email b = JS.Str v → Student.email s' = v)
  ∧ (∀ v, Body.isActive b = JS.Bool v → Student.isActive s' = v).
Proof.
  intros Hfound out s' taken. subst out s' taken. unfold Spec.patched.
  rewrite (patch_cases id index s) by done.
  assert (Hfree : ¬ Terms.taken toLowerCase (students st) id (Body.email b) →
                  Spec.conflict toLowerCase id (Body.email b) (students st) = None).
  { intros Hfree. destruct (Spec.conflict _ _ _ _) as [existing|] eqn:Hc; [|done].
    destruct Hfree. apply conflict_taken. rewrite Hc. by eexists. }
  split_and!.
  - by intros ->.
  - by intros -> ->.
  - by intros -> -> ->.
  - intros -> -> Htaken. pose proof Htaken as (email & Hemail & _).
    apply conflict_taken in Htaken as [existing Hconflict].
    rewrite Hconflict, Hemail. cbn [negb Spec.text_or_absent fst].
    apply conflict_Some in Hconflict as (email' & Heq & Hin & Hsame & Hne).
    exists existing. split_and!; [done..| |done].
    intros e He. congruence.
  - intros -> -> -> Hno ->. by rewrite (Hfree Hno).
  - intros -> -> -> Hno ->. by rewrite (Hfree Hno).
  - by destruct (Body.name b), (Body.age b), (Body.email b), (Body.isActive b).
  - intros ->. by destruct (Body.age b), (Body.email b), (Body.isActive b).
  - intros ->. by destruct (Body.name b), (Body.email b), (Body.isActive b).
  - intros ->. by destruct (Body.name b), (Body.age b), (Body.isActive b).
  - intros ->. by destruct (Body.name b), (Body.age b), (Body.email b).
  - intros v ->. by destruct (Body.age b), (Body.email b), (Body.isActive b).
  - intros v ->. by destruct (Body.name b), (Body.email b), (Body.isActive b).
  - intros v ->. by destruct (Body.name b), (Body.age b), (Body.isActive b).
  - intros v ->. by destruct (Body.name b), (Body.age b), (Body.email b).
Qed.

(** C8. Patching an existing id with a body that holds only a valid age
    answers 200; in the resulting store the record at the position of that
    student is the old record with the new age, its id, name, email and
    isActive as before, and every other position of the store is as before.
    The file is written with that store. *)
Theorem patch_age_only (st : Store) (id : Z) (index : nat) (s : Student.t) (age : Q) :
  Spec.found (students st) id index s → (0 < age)%Q →
  let b := {| Body.name := JS.Undefined; Body.age := JS.Number age;
              Body.email := JS.Undefined; Body.isActive := JS.Undefined |} in
  let s' := Student.set_age age s in
  let out := run (patch_student toLowerCase (Some id) b) st in
  out = ({| status := 200; json := JsonMessageStudent "Student partially updated" s' |},
         {| students := <[index := s']> (students st);
            file := <[index := s']> (students st) |})
  ∧ students out.2 !! index = Some s'
  ∧ Student.age s' = age
  ∧ Student.id s' = Student.id s ∧ Student.name s' = Student.name s
  ∧ Student.email s' = Student.email s ∧ Student.isActive s' = Student.isActive s
  ∧ (∀ j, j ≠ index → students out.2 !! j = students st !! j)
  ∧ length (students out.2) = length (students st).
Proof.
  intros Hfound Hage b s' out. subst out.
  destruct (found_lookup _ _ _ _ Hfound) as [Hat Hid].
  rewrite (patch_cases id index s) by done. simpl.
  destruct (Qlt_le_dec 0 age) as [_|Hle]; [|by apply Qle_not_lt in Hle].
  simpl. split_and!; try done.
  - apply list_lookup_insert_eq. by eapply lookup_lt_Some.
  - intros j Hj. by apply list_lookup_insert_ne.
  - apply length_insert.
Qed.

(** The records the patch steps leave, field by field. *)
Lemma written_name_eq b s : Spec.with_name (Body.name b) s = Terms.written_name b s.
Proof. destruct s. unfold Terms.written_name. by destruct (Body.name b). Qed.

Lemma written_age_eq b s :
  Spec.with_age (Body.age b) (Spec.with_name (Body.name b) s) = Terms.written_age b s.
Proof.
  destruct s. unfold Terms.written_age. by destruct (Body.name b), (Body.age b).
Qed.

Lemma written_email_eq b s :
  Spec.with_email (Body.email b)
    (Spec.with_age (Body.age b) (Spec.with_name (Body.name b) s))
  = Terms.written_email b s.
Proof.
  destruct s. unfold Terms.written_email.
  by destruct (Body.name b), (Body.age b), (Body.email b).
Qed.

(** C10 (amended). Patch is not atomic. On an existing id the fields are
    applied to the stored record one at a time in the order name, age,
    email, isActive. At the first present field that is invalid (400), or
    at a present email that a record with another id has (409), the
    handler answers the error, and exactly the present fields that come
    before the failing one, all valid, have already been written to the
    record in the in-memory store with their payload values: none when the
    name is invalid, the name when the age is, the name and the age when
    the email is invalid or taken, these and the email when isActive is.
    Fields after the failing one are not written, valid or not. The file is
    written only on the 200 path. *)
Theorem patch_not_atomic
    (st : Store) (id : Z) (index : nat) (s : Student.t) (b : Body.t) :
  Spec.found (students st) id index s →
  let out := run (patch_student toLowerCase (Some id) b) st in
  let taken := Terms.taken toLowerCase (students st) id (Body.email b) in
  (Spec.text_or_absent (Body.name b) = false → status out.1 = 400%nat ∧ out.2 = st)
  ∧ (Spec.text_or_absent (Body.name b) = true →
     Spec.positive_or_absent (Body.age b) = false →
     status out.1 = 400%nat
     ∧ students out.2 = <[index := Terms.written_name b s]> (students st)
     ∧ file out.2 = file st)
  ∧ (Spec.text_or_absent (Body.name b) = true →
     Spec.positive_or_absent (Body.age b) = true →
     Spec.text_or_absent (Body.email b) = false →
     status out.1 = 400%nat
     ∧ students out.2 = <[index := Terms.written_age b s]> (students st)
     ∧ file out.2 = file st)
  ∧ (Spec.text_or_absent (Body.name b) = true →
     Spec.positive_or_absent (Body.age b) = true →
     taken →
     status out.1 = 409%nat
     ∧ students out.2 = <[index := Terms.written_age b s]> (students st)
     ∧ file out.2 = file st)
  ∧ (Spec.text_or_absent (Body.name b) = true →
     Spec.positive_or_absent (Body.age b) = true →
     Spec.text_or_absent (Body.email b) = true →
     ¬ taken →
     Spec.boolean_or_absent (Body.isActive b) = false →
     status out.1 = 400%nat
     ∧ students out.2 = <[index := Terms.written_email b s]> (students st)
     ∧ file out.2 = file st)
  ∧ (status out.1 ≠ 200%nat → file out.2 = file st)
  ∧ (status out.1 = 200%nat → file out.2 = students out.2).
Proof.
  intros Hfound out taken. subst out taken.
  rewrite (patch_cases id index s) by done.
  rewrite written_email_eq, written_age_eq, written_name_eq.
  assert (Hfree : ¬ Terms.taken toLowerCase (students st) id (Body.email b) →
                  Spec.conflict toLowerCase id (Body.email b) (students st) = None).
  { intros Hfree. destruct (Spec.conflict _ _ _ _) as [existing|] eqn:Hc; [|done].
    destruct Hfree. apply conflict_taken. rewrite Hc. by eexists. }
  split_and!.
  - by intros ->.
  - by intros -> ->.
  - by intros -> -> ->.
  - intros -> -> Htaken. pose proof Htaken as (email & Hemail & _).
    apply conflict_taken in Htaken as [existing Hconflict].
    by rewrite Hconflict, Hemail.
  - intros -> -> -> Hno ->. by rewrite (Hfree Hno).
  - destruct (Spec.text_or_absent (Body.name b)); [|done].
    destruct (Spec.positive_or_absent (Body.age b)); [|done].
    destruct (Spec.text_or_absent (Body.email b)); [|done].
    simpl. destruct (Spec.conflict _ _ _ _); [done|].
    by destruct (Spec.boolean_or_absent (Body.isActive b)).
  - destruct (Spec.text_or_absent (Body.name b)); [|done].
    destruct (Spec.positive_or_absent (Body.age b)); [|done].
    destruct (Spec.text_or_absent (Body.email b)); [|done].
    simpl. destruct (Spec.conflict _ _ _ _); [done|].
    by destruct (Spec.boolean_or_absent (Body.isActive b)).
Qed.

(** ** Full replace *)

(** The found position is found again after the record there was replaced
    by one with the same id. *)
Lemma found_insert l id index s x :
  Spec.found l id index s → Student.id x = id →
  Spec.found (<[index := x]> l) id index x.
Proof.
  unfold Spec.found. intros (Hat & Hid & Hfirst)%list_find_Some Hx.
  apply list_find_Some. split_and!; [|done|].
  - apply list_lookup_insert_eq. by eapply lookup_lt_Some.
  - intros j y Hj Hlt. rewrite list_lookup_insert_ne in Hj by lia. by eapply Hfirst.
Qed.

(** C9. Full replace is idempotent: for an existing id and a body that
    passes validation and the duplicate-email check, the first call answers
    200 with the record made of the id and the four payload fields and
    stores it, and a second call with the same body on the resulting store
    returns the same response and leaves the same store. *)
Theorem put_idempotent (st : Store) (id : Z) (index : nat) (s : Student.t)
    (name : string) (age : Q) (email : string) (isActive : bool) :
  Spec.found (students st) id index s →
  name ≠ "" → (0 < age)%Q → email ≠ "" →
  (∀ x, x ∈ students st → same_email toLowerCase email x → Student.id x = id) →
  let b := Spec.typed_body name age email isActive in
  let updatedStudent :=
    {| Student.id := id; Student.name := name; Student.age := age;
       Student.email := email; Student.isActive := isActive |} in
  let once := run (put_student toLowerCase (Some id) b) st in
  let twice := run (put_student toLowerCase (Some id) b) once.2 in
  once = ({| status := 200; json := JsonMessageStudent "Student updated" updatedStudent |},
          {| students := <[index := updatedStudent]> (students st);
             file := <[index := updatedStudent]> (students st) |})
  ∧ twice = once
  ∧ students twice.2 !! index = Some updatedStudent.
Proof.
  intros Hfound Hname Hage Hemail Hfresh b updatedStudent once twice.
  destruct (found_lookup _ _ _ _ Hfound) as [Hat Hid].
  assert (Hok : validate b = []).
  { apply validate_nil. by exists name, age, email, isActive. }
  assert (Hnone : list_find (λ x, same_email toLowerCase email x ∧ Student.id x ≠ id)
                    (students st) = None).
  { apply list_find_None, Forall_forall. intros x Hx [Hsame Hne]. by apply Hne, Hfresh. }
  assert (Honce : once = ({| status := 200;
                             json := JsonMessageStudent "Student updated" updatedStudent |},
                          {| students := <[index := updatedStudent]> (students st);
                             file := <[index := updatedStudent]> (students st) |})).
  { subst once b. rewrite (put_valid id index s) by done. by rewrite Hnone. }
  split_and!; [done| |].
  - subst twice. rewrite Honce at 1. cbn [snd].
    subst b. rewrite (put_valid id index updatedStudent); cbn [students]; [| |done].
    + rewrite (list_find_insert_skip _ _ _ s) by (done || tauto).
      rewrite Hnone. cbn zeta. by rewrite list_insert_insert_eq.
    + by apply (found_insert _ _ _ s).
  - subst twice. rewrite Honce at 1. cbn [snd].
    subst b. rewrite (put_valid id index updatedStudent); cbn [students]; [| |done].
    + rewrite (list_find_insert_skip _ _ _ s) by (done || tauto).
      rewrite Hnone. cbn [snd students]. rewrite list_insert_insert_eq.
      apply list_lookup_insert_eq. by eapply lookup_lt_Some.
    + by apply (found_insert _ _ _ s).
Qed.

End Handlers.

(** ** Authentication guards *)

Section Guards.

Variable env_JWT_SECRET : option string.
Variable jwt_verify : string → string → string + User.

(** [split] never returns the empty array. *)
Lemma split_nonempty sep s : JS.split sep s ≠ [].
Proof.
  destruct s as [|c s]; simpl; [done|].
  case_bool_decide; [done|]. by destruct (JS.split sep s).
Qed.

(** The shape test of the bearer guard, on the parts of the header. *)
Lemma bearer_shape (parts : list string) :
  negb (bool_decide (length parts = 2%nat))
    || negb (bool_decide (parts !! 0%nat = Some "Bearer")) = false
  ↔ ∃ token, parts = ["Bearer"; token].
Proof.
  rewrite orb_false_iff, !negb_false_iff, !bool_decide_eq_true. split.
  - intros [Hlen Hfirst]. destruct parts as [|p0 [|p1 [|p2 parts]]]; try done.
    simpl in Hfirst. exists p1. congruence.
  - by intros [token ->].
Qed.

(** C4, as amended. The bearer guard has four outcomes, each a 401
    rejection or the decoded payload: the missing-header error when the
    Authorization header is absent or empty; otherwise the format error
    when the header does not split on spaces into exactly two parts of
    which the first is the literal Bearer; otherwise the invalid/expired
    error, with the verifier's message, when verification of the second
    part fails; otherwise the decoded payload is exposed to the handler.
    The four conditions are exhaustive, the four outcomes are pairwise
    different, and a rejected request leaves the store as it was while an
    accepted one runs the handler on the store as it was. *)
Theorem requireJwt_outcomes (req : Request) :
  let guard := Server.requireJwt env_JWT_SECRET jwt_verify req in
  let secret := Server.JWT_SECRET env_JWT_SECRET in
  let absent := authorization req = None ∨ authorization req = Some "" in
  let malformed := ∃ h, authorization req = Some h ∧ h ≠ ""
                        ∧ ¬ ∃ token, JS.split " " h = ["Bearer"; token] in
  let bearer token := ∃ h, authorization req = Some h ∧ h ≠ ""
                           ∧ JS.split " " h = ["Bearer"; token] in
  (absent → guard = Rejected Server.missing_header)
  ∧ (malformed → guard = Rejected Server.bad_format)
  ∧ (∀ token message, bearer token → jwt_verify token secret = inl message →
       guard = Rejected (Server.bad_token message))
  ∧ (∀ token decoded, bearer token → jwt_verify token secret = inr decoded →
       guard = Next decoded)
  ∧ (absent ∨ malformed ∨ ∃ token, bearer token)
  ∧ Server.missing_header ≠ Server.bad_format
  ∧ (∀ message, Server.bad_token message ≠ Server.missing_header
                ∧ Server.bad_token message ≠ Server.bad_format
                ∧ status (Server.bad_token message) = 401%nat)
  ∧ status Server.missing_header = 401%nat ∧ status Server.bad_format = 401%nat
  ∧ (∀ h st r, guard = Rejected r → protect guard h st = (r, st))
  ∧ (∀ h st user, guard = Next user → protect guard h st = run h st).
Proof.
  intros guard secret absent malformed bearer.
  subst guard secret absent malformed bearer. unfold Server.requireJwt.
  split_and!; try done.
  - by intros [->| ->].
  - intros (h & -> & Hne & Hshape). simpl.
    rewrite bool_decide_eq_false_2 by done.
    destruct (_ || _) eqn:Htest; [done|].
    by apply bearer_shape in Htest.
  - intros token message (h & -> & Hne & Hsplit) Hverify. simpl.
    rewrite bool_decide_eq_false_2 by done.
    rewrite Hsplit. simpl. by rewrite Hverify.
  - intros token decoded (h & -> & Hne & Hsplit) Hverify. simpl.
    rewrite bool_decide_eq_false_2 by done.
    rewrite Hsplit. simpl. by rewrite Hverify.
  - destruct (authorization req) as [h|]; [|by left; left].
    destruct (decide (h = "")) as [->|Hne]; [by left; right|].
    right.
    destruct (negb (bool_decide (length (JS.split " " h) = 2%nat))
              || negb (bool_decide (JS.split " " h !! 0%nat = Some "Bearer"))) eqn:Htest.
    + left. exists h. split_and!; [done..|].
      intros Hshape%bearer_shape. congruence.
    + right. apply bearer_shape in Htest as [token Hsplit]. by exists token, h.
  - by intros h st r ->.
  - by intros h st user ->.
Qed.

(** C7, as amended. The cookie-session guard rejects with the 401
    missing-cookie error when the sessionId cookie is absent or empty, with
    the 401 invalid-session error when its value is not empty and is not
    exactly the fixed session token, and accepts exactly the fixed token.
    Every accepted request gets the same identity, username cookieUser with
    role cookie-tester, whatever login took place. *)
Theorem requireCookieLogin_outcomes (req : Request) :
  let guard := Server.requireCookieLogin req in
  ((sessionId req = None ∨ sessionId req = Some "") →
   guard = Rejected Server.missing_cookie)
  ∧ (∀ value, sessionId req = Some value → value ≠ "" → value ≠ "dummy-session-id" →
       guard = Rejected Server.bad_session)
  ∧ (sessionId req = Some "dummy-session-id" → guard = Next Server.cookieUser)
  ∧ (∀ user, guard = Next user →
       sessionId req = Some "dummy-session-id"
       ∧ user = {| username := "cookieUser"; role := "cookie-tester" |})
  ∧ status Server.missing_cookie = 401%nat
  ∧ status Server.bad_session = 401%nat
  ∧ Server.missing_cookie ≠ Server.bad_session.
Proof.
  intros guard. subst guard. unfold Server.requireCookieLogin.
  split_and!; try done.
  - by intros [->| ->].
  - intros value -> Hne Hother. simpl.
    rewrite bool_decide_eq_false_2 by done.
    rewrite bool_decide_eq_false_2 by congruence. done.
  - by intros ->.
  - intros user. destruct (sessionId req) as [value|]; [|done]. simpl.
    case_bool_decide; [done|]. case_bool_decide; [|done].
    simpl. intros [= <-]. done.
Qed.

End Guards.

(** ** The theorems on concrete requests *)

Lemma sample_found_bob : Spec.found (students Sample.store) 2 1 Sample.bob.
Proof. reflexivity. Qed.

Lemma sample_store_ok : Spec.store_ok JS.asciiLowerCase (students Sample.store).
Proof.
  split; intros [|[|i]] [|[|j]] x y Hi Hj Hkey; simplify_eq/=; done.
Qed.

Lemma sample_cid_fresh x :
  x ∈ students Sample.store → ¬ Students.same_email JS.asciiLowerCase "cid@example.org" x.
Proof.
  intros Hx Hsame. simpl in Hx.
  apply elem_of_cons in Hx as [->|Hx]; [by vm_compute in Hsame|].
  apply elem_of_cons in Hx as [->|Hx]; [by vm_compute in Hsame|].
  by apply elem_of_nil in Hx.
Qed.

Lemma sample_cid_not_held :
  ¬ Terms.held JS.asciiLowerCase (students Sample.store) "cid@example.org".
Proof. intros (x & Hx & Hsame). by apply (sample_cid_fresh x). Qed.

Lemma sample_safe_ids : Terms.safe_ids (students Sample.store).
Proof. repeat constructor. Qed.

Lemma sample_rob_not_taken :
  ¬ Terms.taken JS.asciiLowerCase (students Sample.store) 2 (JS.Str "rob@example.org").
Proof.
  intros (email & [= <-] & x & Hx & Hsame & Hne). simpl in Hx.
  apply elem_of_cons in Hx as [->|Hx]; [by vm_compute in Hsame|].
  apply elem_of_cons in Hx as [->|Hx]; [by vm_compute in Hsame|].
  by apply elem_of_nil in Hx.
Qed.

(** Creating Cid in the two-student store gives id 3. *)
Lemma create_assigns_next_id_witness :
  run (Students.post_student JS.asciiLowerCase Sample.cid) Sample.store =
  ({| status := 201;
      json := JsonMessageStudent "Student created"
                (Student.mk 3 "Cid" (45 # 2) "cid@example.org" true) |},
   {| students := [Sample.ann; Sample.bob; Student.mk 3 "Cid" (45 # 2) "cid@example.org" true];
      file := [Sample.ann; Sample.bob; Student.mk 3 "Cid" (45 # 2) "cid@example.org" true] |}).
Proof.
  apply (create_assigns_next_id JS.asciiLowerCase Sample.store
           "Cid" (45 # 2) "cid@example.org" true);
    [done | reflexivity | done | apply sample_cid_not_held | apply sample_safe_ids].
Defined.

(** POST /students with a good token keeps the sample store well formed. *)
Lemma operations_preserve_invariants_witness :
  Spec.store_ok JS.asciiLowerCase (students Sample.store)
  ∧ Terms.safe_ids (students Sample.store)
  ∧ Spec.store_ok JS.asciiLowerCase
      (students (Students.POST JS.asciiLowerCase (Server.requireJwt None Sample.verify)
                   Demo.post_cid Sample.store).2).
Proof.
  split_and!; [apply sample_store_ok|apply sample_safe_ids|].
  apply (operations_preserve_invariants JS.asciiLowerCase
           (Server.requireJwt None Sample.verify) Demo.post_cid Sample.store
           sample_store_ok).
  apply sample_safe_ids.
Defined.

(** Creating a student whose email is Ann's in capitals: 409. *)
Lemma duplicate_email_detection_witness :
  status (run (Students.post_student JS.asciiLowerCase
                 (Spec.typed_body "Cid" (45 # 2) "ANN@EXAMPLE.ORG" true)) Sample.store).1
  = 409%nat.
Proof.
  destruct (duplicate_email_detection JS.asciiLowerCase Sample.store) as (Hcreate & _).
  destruct (Hcreate "Cid" (45 # 2)%Q "ANN@EXAMPLE.ORG" true) as [[_ Hdup] _]; [reflexivity|].
  apply Hdup. exists Sample.ann. split; [apply list_elem_of_here|reflexivity].
Defined.

(** [PATCH /students/2] with an empty name and a new email: both are
    written. *)
Lemma patch_validates_present_fields_witness :
  run (Students.patch_student JS.asciiLowerCase (Some 2) Demo.rename) Sample.store =
  ({| status := 200;
      json := JsonMessageStudent "Student partially updated"
                (Student.mk 2 "" (21 # 1) "rob@example.org" false) |},
   {| students := [Sample.ann; Student.mk 2 "" (21 # 1) "rob@example.org" false];
      file := [Sample.ann; Student.mk 2 "" (21 # 1) "rob@example.org" false] |}).
Proof.
  destruct (patch_validates_present_fields JS.asciiLowerCase Sample.store 2 1 Sample.bob
              Demo.rename sample_found_bob) as (_ & _ & _ & _ & _ & Hok & _).
  apply Hok; [reflexivity..|apply sample_rob_not_taken|reflexivity].
Defined.

(** [PATCH /students/2] with [{"age":23}]. *)
Lemma patch_age_only_witness :
  run (Students.patch_student JS.asciiLowerCase (Some 2) Sample.age23) Sample.store =
  ({| status := 200;
      json := JsonMessageStudent "Student partially updated"
                (Student.mk 2 "Bob" (23 # 1) "bob@example.org" false) |},
   {| students := [Sample.ann; Student.mk 2 "Bob" (23 # 1) "bob@example.org" false];
      file := [Sample.ann; Student.mk 2 "Bob" (23 # 1) "bob@example.org" false] |}).
Proof.
  apply (patch_age_only JS.asciiLowerCase Sample.store 2 1 Sample.bob (23 # 1)
           sample_found_bob).
  reflexivity.
Defined.

(** [PUT /students/2] with Bob's own email in capitals, twice. *)
Lemma put_idempotent_witness :
  run (Students.put_student JS.asciiLowerCase (Some 2)
         (Spec.typed_body "Robert" (30 # 1) "BOB@example.org" true))
      (run (Students.put_student JS.asciiLowerCase (Some 2)
              (Spec.typed_body "Robert" (30 # 1) "BOB@example.org" true))
           Sample.store).2
  = run (Students.put_student JS.asciiLowerCase (Some 2)
           (Spec.typed_body "Robert" (30 # 1) "BOB@example.org" true))
        Sample.store.
Proof.
  apply (put_idempotent JS.asciiLowerCase Sample.store 2 1 Sample.bob
           "Robert" (30 # 1) "BOB@example.org" true sample_found_bob);
    [done | reflexivity | done |].
  intros x Hx Hsame. simpl in Hx.
  apply elem_of_cons in Hx as [->|Hx]; [by vm_compute in Hsame|].
  apply elem_of_cons in Hx as [->|Hx]; [done|].
  by apply elem_of_nil in Hx.
Defined.

(** [PATCH /students/2] with a new name, age and email and the string
    "yes" for isActive: 400, yet name, age and email are Bobby's in memory
    while the file still holds Bob. *)
Lemma patch_not_atomic_witness :
  status (run (Students.patch_student JS.asciiLowerCase (Some 2) Demo.late_failure)
            Sample.store).1 = 400%nat
  ∧ students (run (Students.patch_student JS.asciiLowerCase (Some 2) Demo.late_failure)
                Sample.store).2
    = [Sample.ann; Student.mk 2 "Bobby" (30 # 1) "rob@example.org" false]
  ∧ file (run (Students.patch_student JS.asciiLowerCase (Some 2) Demo.late_failure)
            Sample.store).2
    = [Sample.ann; Sample.bob].
Proof.
  destruct (patch_not_atomic JS.asciiLowerCase Sample.store 2 1 Sample.bob
              Demo.late_failure sample_found_bob) as (_ & _ & _ & _ & Hlate & _).
  apply Hlate; [reflexivity..|apply sample_rob_not_taken|reflexivity].
Defined.

(** The scenarios of the bearer guard: [Authorization: Basic abc], a token
    the verifier refuses, and a token it accepts. *)
Example basic_abc_is_malformed :
  Server.requireJwt None Sample.verify (Sample.request (Some "Basic abc") None)
  = Rejected Server.bad_format.
Proof. reflexivity. Qed.

Example refused_token_is_rejected :
  Server.requireJwt None Sample.verify (Sample.request (Some "Bearer stale") None)
  = Rejected (Server.bad_token "jwt malformed").
Proof. reflexivity. Qed.

Example good_token_is_accepted :
  Server.requireJwt None Sample.verify (Sample.request (Some "Bearer good") None)
  = Next {| username := "testuser"; role := "student-admin" |}.
Proof. reflexivity. Qed.

(** Age 0 is rejected by create, replace and patch. *)
Example age_zero_is_rejected :
  status (run (Students.post_student JS.asciiLowerCase
                 (Spec.typed_body "Cid" 0 "cid@example.org" true)) Sample.store).1 = 400%nat
  ∧ status (run (Students.put_student JS.asciiLowerCase (Some 2)
                   (Spec.typed_body "Cid" 0 "cid@example.org" true)) Sample.store).1 = 400%nat
  ∧ status (run (Students.patch_student JS.asciiLowerCase (Some 2) Sample.bobby_age0)
              Sample.store).1 = 400%nat.
Proof. split_and!; reflexivity. Qed.

(** Deleting student 1 twice: 200 with the record, then 404. *)
Example delete_twice :
  run (Students.delete_student (Some 1)) Sample.store
  = ({| status := 200; json := JsonMessageStudent "Student deleted" Sample.ann |},
     {| students := [Sample.bob]; file := [Sample.bob] |})
  ∧ (run (Students.delete_student (Some 1))
       {| students := [Sample.bob]; file := [Sample.bob] |}).1
    = {| status := 404; json := JsonError "Student with id 1 not found" |}.
Proof. split; reflexivity. Qed.

(** ** Inputs on which a stated rule and the code differ *)

(** A create on a store whose only id is -5 is given the id 1, which is not
    one plus the largest id present; and on a store whose only id is 2^53
    it is given 2^53 again, the double nearest to 2^53 + 1. *)
Lemma create_on_negative_or_huge_ids :
  (run (Students.post_student JS.asciiLowerCase Sample.cid) Demo.negative).1
  = {| status := 201;
       json := JsonMessageStudent "Student created"
                 (Student.mk 1 "Cid" (45 # 2) "cid@example.org" true) |}
  ∧ (1 ≠ Student.id Demo.eve + 1)%Z
  ∧ (run (Students.post_student JS.asciiLowerCase Sample.cid) Demo.huge).1
    = {| status := 201;
         json := JsonMessageStudent "Student created"
                   (Student.mk (Student.id Demo.max) "Cid" (45 # 2) "cid@example.org" true) |}
  ∧ (Student.id Demo.max ≠ Student.id Demo.max + 1)%Z.
Proof. split_and!; [reflexivity|done|reflexivity|done]. Qed.

(** From the store whose only id is 2^53, unique in id and email, a valid
    create answers 201 and leaves two records with the id 2^53. *)
Lemma create_repeats_id_two_to_the_53 :
  Spec.store_ok JS.asciiLowerCase (students Demo.huge)
  ∧ status (Students.POST JS.asciiLowerCase (Server.requireJwt None Sample.verify)
              Demo.post_cid Demo.huge).1 = 201%nat
  ∧ ¬ Spec.store_ok JS.asciiLowerCase
        (students (Students.POST JS.asciiLowerCase (Server.requireJwt None Sample.verify)
                     Demo.post_cid Demo.huge).2).
Proof.
  split_and!.
  - split; intros [|i] [|j] x y Hi Hj Hkey; simplify_eq/=; done.
  - reflexivity.
  - intros [_ Hids].
    specialize (Hids 0%nat 1%nat Demo.max
                  (Student.mk (Student.id Demo.max) "Cid" (45 # 2) "cid@example.org" true)
                  eq_refl eq_refl eq_refl).
    discriminate.
Qed.

(** [PATCH /students/2] with a number for the name, a valid age and an
    invalid isActive: the age, a valid field that comes before the invalid
    isActive, is not written; the handler stops at the name and the store
    is as before. *)
Lemma patch_stops_at_first_invalid_field :
  Spec.positive_number (Body.age Demo.early_failure) = true
  ∧ Spec.boolean (Body.isActive Demo.early_failure) = false
  ∧ run (Students.patch_student JS.asciiLowerCase (Some 2) Demo.early_failure) Sample.store
    = ({| status := 400; json := JsonError "Invalid 'name'. Must be a string." |},
       Sample.store).
Proof. split_and!; reflexivity. Qed.

(** An Authorization header that is present but empty is answered with the
    missing-header error, not with the format error, although it does not
    split into two parts. *)
Lemma empty_authorization_header :
  authorization (Sample.request (Some "") None) = Some ""
  ∧ JS.split " " "" = [""]
  ∧ Server.requireJwt None Sample.verify (Sample.request (Some "") None)
    = Rejected Server.missing_header
  ∧ Server.requireJwt None Sample.verify (Sample.request (Some "") None)
    ≠ Rejected Server.bad_format.
Proof. split_and!; try reflexivity. intros [=]. Qed.

(** A sessionId cookie that is present but empty is not equal to the session
    token, yet it is answered with the missing-cookie error, not with the
    invalid-session error. *)
Lemma empty_session_cookie :
  sessionId (Sample.request None (Some "")) = Some ""
  ∧ "" ≠ "dummy-session-id"
  ∧ Server.requireCookieLogin (Sample.request None (Some ""))
    = Rejected Server.missing_cookie
  ∧ Server.requireCookieLogin (Sample.request None (Some ""))
    ≠ Rejected Server.bad_session.
Proof. split_and!; try done. Qed.

(** [PATCH /students/2] with [{"name":""}]: the empty name violates the
    name rule of full validation (create answers 400 on it), and patch
    accepts it and stores it. *)
Lemma patch_accepts_empty_name :
  Spec.nonempty_text (Body.name Sample.blank_name) = false
  ∧ Students.text_invalid (Body.name Sample.blank_name) = true
  ∧ run (Students.patch_student JS.asciiLowerCase (Some 2) Sample.blank_name) Sample.store =
    ({| status := 200;
        json := JsonMessageStudent "Student partially updated"
                  (Student.mk 2 "" (21 # 1) "bob@example.org" false) |},
     {| students := [Sample.ann; Student.mk 2 "" (21 # 1) "bob@example.org" false];
        file := [Sample.ann; Student.mk 2 "" (21 # 1) "bob@example.org" false] |}).
Proof. split_and!; reflexivity. Qed.

(** * The public routes and the store across requests *)

Section Reads.

Variable toLowerCase : string → string.

Import Students Public.

(** ** Searching the array after it changed *)

Lemma list_find_snoc_other {A} (P : A → Prop) `{!∀ x, Decision (P x)} (l : list A) x :
  ¬ P x → snd <$> list_find P (l ++ [x]) = snd <$> list_find P l.
Proof.
  intros Hx. destruct (list_find P l) as [[i y]|] eqn:Hfind.
  - by rewrite (list_find_app_l _ _ _ _ _ Hfind).
  - rewrite list_find_app_r by done. simpl. by rewrite decide_False.
Qed.

Lemma list_find_snoc_new {A} (P : A → Prop) `{!∀ x, Decision (P x)} (l : list A) x :
  Forall (λ y, ¬ P y) l → P x → list_find P (l ++ [x]) = Some (length l, x).
Proof.
  intros Hl Hx. rewrite list_find_app_r by (by apply list_find_None).
  simpl. by rewrite decide_True.
Qed.

Lemma list_find_delete_other {A} (P : A → Prop) `{!∀ x, Decision (P x)} (l : list A) i x :
  l !! i = Some x → ¬ P x →
  snd <$> list_find P (delete i l) = snd <$> list_find P l.
Proof.
  revert i. induction l as [|y l IH]; intros [|i] Hi Hx; simplify_eq/=.
  - rewrite decide_False by done. by destruct (list_find P l) as [[k b]|].
  - case_decide; [done|]. specialize (IH i Hi Hx).
    destruct (list_find P (delete i l)) as [[j a]|], (list_find P l) as [[k b]|];
      simplify_eq/=; done.
Qed.

(** The first record with an id is gone once it is removed, when ids are
    unique. *)
Lemma list_find_delete_found l id index s :
  Spec.found l id index s → Spec.unique_ids l →
  list_find (λ x, Student.id x = id) (delete index l) = None.
Proof.
  intros [Hat Hid]%found_lookup Hids.
  apply list_find_None, Forall_forall. intros y [j Hj]%list_elem_of_lookup_1 Hy.
  rewrite list_lookup_delete in Hj.
  assert ((if decide (j < index)%nat then j else S j) = index) as Heq.
  { apply (Hids _ _ y s); [done..|congruence]. }
  case_decide; lia.
Qed.

(** The reply of GET /students/:id depends on the record found only. *)
Lemma get_student_reply id st st' :
  snd <$> list_find (λ s, Student.id s = id) (students st')
  = snd <$> list_find (λ s, Student.id s = id) (students st) →
  (get_student (Some id) st').1 = (get_student (Some id) st).1.
Proof.
  unfold get_student. intros Heq.
  destruct (list_find _ (students st')) as [[i x]|],
    (list_find _ (students st)) as [[j y]|]; simplify_eq/=; done.
Qed.

Lemma get_student_found id index s st :
  Spec.found (students st) id index s →
  get_student (Some id) st
  = ({| code := 200; payload := JsonStudent s; setCookies := [] |}, st).
Proof. unfold get_student, Spec.found. by intros ->. Qed.

Lemma get_student_missing id st :
  list_find (λ s, Student.id s = id) (students st) = None →
  get_student (Some id) st
  = ({| code := 404; payload := PlainJson (not_found id); setCookies := [] |}, st).
Proof. unfold get_student. by intros ->. Qed.

(** ** The two public routes *)

(** In a store with unique ids the two public routes agree: the listing
    answers 200 with all the records and their number, and every listed
    record is the one GET of its id answers with; both leave the store as
    it was. *)
Theorem listed_students_can_be_fetched (st : Store) :
  Spec.unique_ids (students st) →
  get_students st
  = ({| code := 200; payload := JsonListing (length (students st)) (students st);
        setCookies := [] |}, st)
  ∧ ∀ s, s ∈ students st →
      get_student (Some (Student.id s)) st
      = ({| code := 200; payload := JsonStudent s; setCookies := [] |}, st).
Proof.
  intros Hids. split; [done|].
  intros s [i Hi]%list_elem_of_lookup_1.
  destruct (list_find (λ x, Student.id x = Student.id s) (students st))
    as [[j y]|] eqn:Hfind.
  - pose proof Hfind as (Hj & Hy & _)%list_find_Some.
    assert (j = i) as -> by (by eapply Hids).
    rewrite (get_student_found _ i y) by done. congruence.
  - rewrite list_find_None, Forall_forall in Hfind.
    destruct (Hfind s); [by eapply list_elem_of_lookup_2|done].
Qed.

(** ** Reading after writing *)

(** On a store whose ids are all below 2^53, after a valid create GET of
    the new id answers 200 with the created record; that id was answered
    404 before; GET of every other id answers as before. *)
Theorem read_after_create (st : Store)
    (name : string) (age : Q) (email : string) (isActive : bool) :
  name ≠ "" → (0 < age)%Q → email ≠ "" →
  ¬ Terms.held toLowerCase (students st) email →
  Terms.safe_ids (students st) →
  let out := run (post_student toLowerCase (Spec.typed_body name age email isActive)) st in
  let newStudent :=
    {| Student.id := Spec.max_default 0 (Student.id <$> students st) + 1;
       Student.name := name; Student.age := age; Student.email := email;
       Student.isActive := isActive |} in
  out.1 = {| status := 201; json := JsonMessageStudent "Student created" newStudent |}
  ∧ get_student (Some (Student.id newStudent)) out.2
    = ({| code := 200; payload := JsonStudent newStudent; setCookies := [] |}, out.2)
  ∧ code (get_student (Some (Student.id newStudent)) st).1 = 404%nat
  ∧ (∀ id, id ≠ Student.id newStudent →
       (get_student (Some id) out.2).1 = (get_student (Some id) st).1).
Proof.
  intros Hname Hage Hemail Hfresh Hsafe out newStudent.
  assert (Hok : validate (Spec.typed_body name age email isActive) = []).
  { apply validate_nil. by exists name, age, email, isActive. }
  assert (Hout : out = ({| status := 201;
                           json := JsonMessageStudent "Student created" newStudent |},
                        {| students := students st ++ [newStudent];
                           file := students st ++ [newStudent] |})).
  { subst out. rewrite post_valid by done.
    rewrite (proj2 (list_find_None _ _)).
    - simpl. by rewrite next_id.
    - apply Forall_forall. intros x Hx Hsame. apply Hfresh. by exists x. }
  assert (Hnew : Forall (λ y, ¬ Student.id y = Student.id newStudent) (students st)).
  { apply Forall_forall. intros y Hy%maxId_upper. unfold newStudent. simpl.
    rewrite <- maxId_max_default. lia. }
  rewrite Hout. cbn [fst snd]. split_and!; [done| | |].
  - apply (get_student_found _ (length (students st))). unfold Spec.found.
    cbn [students]. by apply list_find_snoc_new.
  - rewrite get_student_missing; [done|]. by apply list_find_None.
  - intros id Hid. apply get_student_reply. cbn [students].
    apply list_find_snoc_other. unfold newStudent in *. simpl in *. lia.
Qed.

(** After a successful replace, GET of the id answers 200 with the record
    made of the id and the four payload fields; GET of every other id
    answers as before. *)
Theorem read_after_put (st : Store) (id : Z) (index : nat) (s : Student.t)
    (name : string) (age : Q) (email : string) (isActive : bool) :
  Spec.found (students st) id index s →
  name ≠ "" → (0 < age)%Q → email ≠ "" →
  (∀ x, x ∈ students st → same_email toLowerCase email x → Student.id x = id) →
  let out :=
    run (put_student toLowerCase (Some id) (Spec.typed_body name age email isActive)) st in
  let updatedStudent :=
    {| Student.id := id; Student.name := name; Student.age := age;
       Student.email := email; Student.isActive := isActive |} in
  status out.1 = 200%nat
  ∧ get_student (Some id) out.2
    = ({| code := 200; payload := JsonStudent updatedStudent; setCookies := [] |}, out.2)
  ∧ (∀ id', id' ≠ id → (get_student (Some id') out.2).1 = (get_student (Some id') st).1).
Proof.
  intros Hfound Hname Hage Hemail Hfresh out updatedStudent.
  destruct (found_lookup _ _ _ _ Hfound) as [Hat Hid].
  assert (Hok : validate (Spec.typed_body name age email isActive) = []).
  { apply validate_nil. by exists name, age, email, isActive. }
  assert (Hout : out = ({| status := 200;
                           json := JsonMessageStudent "Student updated" updatedStudent |},
                        {| students := <[index := updatedStudent]> (students st);
                           file := <[index := updatedStudent]> (students st) |})).
  { subst out. rewrite (put_valid toLowerCase id index s) by done.
    rewrite (proj2 (list_find_None _ _)); [done|].
    apply Forall_forall. intros x Hx [Hsame Hne]. by apply Hne, Hfresh. }
  rewrite Hout. cbn [fst snd]. split_and!; [done| |].
  - apply (get_student_found _ index). cbn [students].
    by apply (found_insert _ _ _ s).
  - intros id' Hid'. apply get_student_reply. cbn [students].
    rewrite (list_find_insert_skip _ _ _ s); [done..| |]; simpl; congruence.
Qed.

(** Whatever a patch of an existing id answers, the array afterwards is the
    old one with, at the found position, a record of the same id and, when
    the email was not written, the same email. *)
Lemma patch_store id index s b st :
  Spec.found (students st) id index s →
  let out := run (patch_student toLowerCase (Some id) b) st in
  ∃ x, Student.id x = id
       ∧ students out.2 = <[index := x]> (students st)
       ∧ (file out.2 = file st ∨ file out.2 = students out.2)
       ∧ (status out.1 = 200%nat → x = Spec.patched b s ∧ file out.2 = students out.2)
       ∧ (status out.1 ≠ 200%nat → file out.2 = file st)
       ∧ (Spec.text_or_absent (Body.name b) = true →
          Spec.positive_or_absent (Body.age b) = false →
          status out.1 = 400%nat ∧ x = Spec.with_name (Body.name b) s).
Proof.
  intros Hfound out. subst out.
  destruct (found_lookup _ _ _ _ Hfound) as [Hat Hid].
  rewrite (patch_cases toLowerCase id index s) by done.
  set (s1 := Spec.with_name (Body.name b) s).
  set (s2 := Spec.with_age (Body.age b) s1).
  set (s3 := Spec.with_email (Body.email b) s2).
  set (s4 := Spec.with_isActive (Body.isActive b) s3).
  assert (H1 : Student.id s1 = id) by (unfold s1; by rewrite with_name_id).
  assert (H2 : Student.id s2 = id) by (unfold s2; by rewrite with_age_id).
  assert (H3 : Student.id s3 = id) by (unfold s3; by rewrite with_email_id).
  assert (H4 : Student.id s4 = id) by (unfold s4; by rewrite with_isActive_id).
  destruct (Spec.text_or_absent (Body.name b)); cbn [negb].
  { destruct (Spec.positive_or_absent (Body.age b)); cbn [negb].
    { destruct (Spec.text_or_absent (Body.email b)); cbn [negb].
      { destruct (Spec.conflict _ _ _ _).
        { exists s2. cbn [fst snd status students file Spec.mem]. split_and!; auto; done. }
        destruct (Spec.boolean_or_absent (Body.isActive b)); cbn [negb].
        { exists s4. cbn [fst snd status students file]. split_and!; auto; done. }
        exists s3. cbn [fst snd status students file Spec.mem]. split_and!; auto; done. }
      exists s2. cbn [fst snd status students file Spec.mem]. split_and!; auto; done. }
    exists s1. cbn [fst snd status students file Spec.mem]. split_and!; auto; done. }
  exists s. cbn [fst snd status]. rewrite list_insert_id by done.
  split_and!; auto; done.
Qed.

(** After a patch of an existing id, whatever it answered, GET of the id
    answers 200 with the record now stored at the found position: the
    record with every present field overwritten after a 200, and already
    the record with the new name after the 400 of an invalid age. GET of
    every other id answers as before. *)
Theorem read_after_patch (st : Store) (id : Z) (index : nat) (s : Student.t) (b : Body.t) :
  Spec.found (students st) id index s →
  let out := run (patch_student toLowerCase (Some id) b) st in
  (∃ x, students out.2 !! index = Some x
        ∧ get_student (Some id) out.2
          = ({| code := 200; payload := JsonStudent x; setCookies := [] |}, out.2))
  ∧ (status out.1 = 200%nat →
     get_student (Some id) out.2
     = ({| code := 200; payload := JsonStudent (Spec.patched b s); setCookies := [] |},
        out.2))
  ∧ (Spec.text_or_absent (Body.name b) = true →
     Spec.positive_or_absent (Body.age b) = false →
     status out.1 = 400%nat
     ∧ get_student (Some id) out.2
       = ({| code := 200; payload := JsonStudent (Spec.with_name (Body.name b) s);
             setCookies := [] |}, out.2))
  ∧ (∀ id', id' ≠ id → (get_student (Some id') out.2).1 = (get_student (Some id') st).1).
Proof.
  intros Hfound out.
  destruct (found_lookup _ _ _ _ Hfound) as [Hat Hid].
  destruct (patch_store id index s b st Hfound) as (x & Hx & Hstore & _ & Hok & _ & Hage).
  fold out in Hstore, Hok, Hage.
  assert (Hget : get_student (Some id) out.2
                 = ({| code := 200; payload := JsonStudent x; setCookies := [] |}, out.2)).
  { apply (get_student_found _ index). rewrite Hstore. by apply (found_insert _ _ _ s). }
  split_and!.
  - exists x. split; [|done]. rewrite Hstore.
    apply list_lookup_insert_eq. by eapply lookup_lt_Some.
  - intros H200. destruct (Hok H200) as [<- _]. done.
  - intros Hn Ha. destruct (Hage Hn Ha) as [H400 <-]. done.
  - intros id' Hid'. apply get_student_reply. rewrite Hstore.
    rewrite (list_find_insert_skip _ _ _ s); [done..| |]; simpl; congruence.
Qed.

(** Deleting an existing id from a store with unique ids answers 200 with
    the record, removes exactly that position, and afterwards GET of the id
    and a second DELETE of the id answer 404 and change nothing; GET of
    every other id answers as before. *)
Theorem read_after_delete (st : Store) (id : Z) (index : nat) (s : Student.t) :
  Spec.found (students st) id index s → Spec.unique_ids (students st) →
  let out := run (delete_student (Some id)) st in
  out.1 = {| status := 200; json := JsonMessageStudent "Student deleted" s |}
  ∧ students out.2 = delete index (students st)
  ∧ S (length (students out.2)) = length (students st)
  ∧ get_student (Some id) out.2
    = ({| code := 404; payload := PlainJson (not_found id); setCookies := [] |}, out.2)
  ∧ run (delete_student (Some id)) out.2
    = ({| status := 404; json := not_found id |}, out.2)
  ∧ (∀ id', id' ≠ id → (get_student (Some id') out.2).1 = (get_student (Some id') st).1).
Proof.
  intros Hfound Hids out. subst out.
  destruct (found_lookup _ _ _ _ Hfound) as [Hat Hid].
  pose proof (list_find_delete_found _ _ _ _ Hfound Hids) as Hgone.
  rewrite delete_cases. unfold Spec.found in Hfound. rewrite Hfound.
  cbn [fst snd students]. split_and!; [done..| | | |].
  - rewrite length_delete by done. apply lookup_lt_Some in Hat. lia.
  - by apply get_student_missing.
  - rewrite delete_cases. cbn [students]. by rewrite Hgone.
  - intros id' Hid'. apply get_student_reply. cbn [students].
    apply (list_find_delete_other _ _ _ s); [done|congruence].
Qed.

(** On a store whose ids are all below 2^53, deleting the id a valid
    create just returned restores the array, and writes it to the file; the
    next valid create is given the same id again. *)
Theorem create_then_delete (st : Store)
    (name : string) (age : Q) (email : string) (isActive : bool)
    (name' : string) (age' : Q) (email' : string) (isActive' : bool) :
  name ≠ "" → (0 < age)%Q → email ≠ "" →
  ¬ Terms.held toLowerCase (students st) email →
  name' ≠ "" → (0 < age')%Q → email' ≠ "" →
  ¬ Terms.held toLowerCase (students st) email' →
  Terms.safe_ids (students st) →
  let created := run (post_student toLowerCase (Spec.typed_body name age email isActive)) st in
  let newId := Spec.max_default 0 (Student.id <$> students st) + 1 in
  let out := run (delete_student (Some newId)) created.2 in
  let again :=
    run (post_student toLowerCase (Spec.typed_body name' age' email' isActive')) out.2 in
  created.1 = {| status := 201;
                 json := JsonMessageStudent "Student created"
                           (Student.mk newId name age email isActive) |}
  ∧ out.1 = {| status := 200;
               json := JsonMessageStudent "Student deleted"
                         (Student.mk newId name age email isActive) |}
  ∧ out.2 = {| students := students st; file := students st |}
  ∧ again.1 = {| status := 201;
                 json := JsonMessageStudent "Student created"
                           (Student.mk newId name' age' email' isActive') |}.
Proof.
  intros Hname Hage Hemail Hfresh Hname' Hage' Hemail' Hfresh' Hsafe
    created newId out again.
  assert (Hok : validate (Spec.typed_body name age email isActive) = []).
  { apply validate_nil. by exists name, age, email, isActive. }
  assert (Hok' : validate (Spec.typed_body name' age' email' isActive') = []).
  { apply validate_nil. by exists name', age', email', isActive'. }
  set (newStudent := Student.mk newId name age email isActive).
  assert (Hcreated : created = ({| status := 201;
                                   json := JsonMessageStudent "Student created" newStudent |},
                                {| students := students st ++ [newStudent];
                                   file := students st ++ [newStudent] |})).
  { subst created. rewrite post_valid by done.
    rewrite (proj2 (list_find_None _ _)).
    - simpl. by rewrite next_id.
    - apply Forall_forall. intros x Hx Hsame. apply Hfresh. by exists x. }
  assert (Hout : out = ({| status := 200; json := JsonMessageStudent "Student deleted" newStudent |},
                        {| students := students st; file := students st |})).
  { subst out. rewrite Hcreated, delete_cases. cbn [snd students].
    rewrite (list_find_snoc_new _ _ newStudent); [| |done].
    - assert (delete (length (students st)) (students st ++ [newStudent])%list
              = students st) as ->; [|done].
      rewrite delete_middle. by rewrite app_nil_r.
    - apply Forall_forall. intros y Hy%maxId_upper. unfold newId. simpl.
      rewrite <- maxId_max_default. lia. }
  split_and!; [by rewrite Hcreated|by rewrite Hout..|].
  subst again. rewrite Hout. cbn [snd]. rewrite post_valid by done. cbn [students].
  rewrite (proj2 (list_find_None _ _)).
  - simpl. by rewrite next_id.
  - apply Forall_forall. intros x Hx Hsame. apply Hfresh'. by exists x.
Qed.

(** ** What the handlers leave behind *)

Lemma put_error param b st :
  status (run (put_student toLowerCase param b) st).1 ≠ 200%nat →
  (run (put_student toLowerCase param b) st).2 = st.
Proof.
  destruct param as [id|]; [|done].
  destruct (list_find (λ s, Student.id s = id) (students st)) as [[index s]|] eqn:Hfound;
    [|by rewrite put_missing].
  destruct (decide (validate b = [])) as [Hnil|Hne];
    [|by rewrite (put_invalid toLowerCase id index s)].
  pose proof Hnil as (name & age & email & isActive & -> & _)%validate_nil.
  fold (Spec.typed_body name age email isActive) in *.
  rewrite (put_valid toLowerCase id index s) by done.
  by destruct (list_find (λ x, _ ∧ _) _) as [[i existing]|].
Qed.

(** Create, replace and delete answer 400, 404 and 409 before they change
    anything: whenever one of them answers such a code, the array and the
    file are exactly as they were. *)
Theorem errors_leave_store (st : Store) (param : option Z) (b : Body.t) :
  (status (run (post_student toLowerCase b) st).1 = 400%nat
   ∨ status (run (post_student toLowerCase b) st).1 = 409%nat →
   (run (post_student toLowerCase b) st).2 = st)
  ∧ (status (run (put_student toLowerCase param b) st).1 = 400%nat
     ∨ status (run (put_student toLowerCase param b) st).1 = 404%nat
     ∨ status (run (put_student toLowerCase param b) st).1 = 409%nat →
     (run (put_student toLowerCase param b) st).2 = st)
  ∧ (status (run (delete_student param) st).1 = 400%nat
     ∨ status (run (delete_student param) st).1 = 404%nat →
     (run (delete_student param) st).2 = st).
Proof.
  split_and!.
  - destruct (decide (validate b = [])) as [Hnil|Hne]; [|by rewrite post_invalid].
    pose proof Hnil as (name & age & email & isActive & -> & _)%validate_nil.
    fold (Spec.typed_body name age email isActive) in *.
    rewrite post_valid by done.
    destruct (list_find _ _) as [[i existing]|]; [done|]. by intros [|].
  - intros Hcode. apply put_error. intros H200. rewrite H200 in Hcode.
    by destruct Hcode as [|[|]].
  - rewrite delete_cases. destruct param as [id|]; [|done].
    destruct (list_find _ _) as [[index deleted]|]; [|done]. by intros [|].
Qed.

(** Replace and patch never add or remove a record and never change an id:
    on every path the list of ids of the array is the one before. *)
Theorem put_patch_keep_ids (st : Store) (param : option Z) (b : Body.t) :
  Student.id <$> students (run (put_student toLowerCase param b) st).2
  = Student.id <$> students st
  ∧ Student.id <$> students (run (patch_student toLowerCase param b) st).2
    = Student.id <$> students st.
Proof.
  split.
  - destruct (decide (status (run (put_student toLowerCase param b) st).1 = 200%nat))
      as [H200|Herr]; [|by rewrite (put_error param b st Herr)].
    destruct param as [id|]; [|done].
    destruct (list_find (λ s, Student.id s = id) (students st)) as [[index s]|] eqn:Hfound;
      [|by rewrite put_missing in H200].
    destruct (found_lookup _ _ _ _ Hfound) as [Hat Hid].
    destruct (decide (validate b = [])) as [Hnil|Hne];
      [|by rewrite (put_invalid toLowerCase id index s) in H200].
    pose proof Hnil as (name & age & email & isActive & -> & _)%validate_nil.
    fold (Spec.typed_body name age email isActive) in *.
    rewrite (put_valid toLowerCase id index s) in * by done.
    destruct (list_find (λ x, _ ∧ _) _) as [[i existing]|]; [done|].
    cbn [snd students]. rewrite list_fmap_insert. simpl.
    apply list_insert_id. by rewrite list_lookup_fmap, Hat, <- Hid.
  - destruct param as [id|]; [|done].
    destruct (list_find (λ s, Student.id s = id) (students st)) as [[index s]|] eqn:Hfound;
      [|by rewrite patch_missing].
    destruct (found_lookup _ _ _ _ Hfound) as [Hat Hid].
    destruct (patch_store id index s b st Hfound) as (x & Hx & -> & _).
    rewrite list_fmap_insert.
    apply list_insert_id. by rewrite list_lookup_fmap, Hat, Hx, <- Hid.
Qed.

(** The fields a failed patch wrote in memory reach the file with the next
    successful write: after the 400 of a patch with a valid name and an
    invalid age, a valid create answers 201 and the file it writes holds the
    patched name at the position of the patched student. *)
Theorem failed_patch_is_written_later
    (st : Store) (id : Z) (index : nat) (s : Student.t) (b : Body.t)
    (name : string) (age : Q) (email : string) (isActive : bool) :
  Spec.found (students st) id index s →
  Spec.text_or_absent (Body.name b) = true →
  Spec.positive_or_absent (Body.age b) = false →
  name ≠ "" → (0 < age)%Q → email ≠ "" →
  (∀ x, x ∈ students st → ¬ same_email toLowerCase email x) →
  let failed := run (patch_student toLowerCase (Some id) b) st in
  let out :=
    run (post_student toLowerCase (Spec.typed_body name age email isActive)) failed.2 in
  status failed.1 = 400%nat
  ∧ file failed.2 = file st
  ∧ status out.1 = 201%nat
  ∧ file out.2 !! index = Some (Spec.with_name (Body.name b) s).
Proof.
  intros Hfound Hn Ha Hname Hage Hemail Hfresh failed out.
  destruct (found_lookup _ _ _ _ Hfound) as [Hat Hid].
  destruct (patch_store id index s b st Hfound) as (x & Hx & Hstore & _ & _ & Hfile & Hfail).
  fold failed in Hstore, Hfile, Hfail.
  destruct (Hfail Hn Ha) as [H400 ->].
  assert (Hok : validate (Spec.typed_body name age email isActive) = []).
  { apply validate_nil. by exists name, age, email, isActive. }
  assert (Hmail : Student.email (Spec.with_name (Body.name b) s) = Student.email s).
  { by destruct (Body.name b). }
  split_and!; [done|apply Hfile; by rewrite H400| |].
  - subst out. rewrite post_valid by done.
    destruct (list_find _ _) as [[i existing]|] eqn:Hfind; [|done].
    apply list_find_Some in Hfind as (Hi & Hsame & _).
    rewrite Hstore in Hi.
    apply list_lookup_insert_Some in Hi as [(-> & <- & _)|[_ Hi]].
    + destruct (Hfresh s); [by eapply list_elem_of_lookup_2|].
      unfold same_email in *. by rewrite <- Hmail.
    + destruct (Hfresh existing); [by eapply list_elem_of_lookup_2|done].
  - subst out. rewrite post_valid by done.
    destruct (list_find _ _) as [[i existing]|] eqn:Hfind.
    + apply list_find_Some in Hfind as (Hi & Hsame & _).
      rewrite Hstore in Hi.
      apply list_lookup_insert_Some in Hi as [(-> & <- & _)|[_ Hi]].
      * destruct (Hfresh s); [by eapply list_elem_of_lookup_2|].
        unfold same_email in *. by rewrite <- Hmail.
      * destruct (Hfresh existing); [by eapply list_elem_of_lookup_2|done].
    + cbn [snd file]. rewrite Hstore. rewrite lookup_app_l.
      * apply list_lookup_insert_eq. by eapply lookup_lt_Some.
      * rewrite length_insert. by eapply lookup_lt_Some.
Qed.

End Reads.

(** * The login routes and the guards *)

Section Logins.

Variable env_JWT_SECRET : option string.
Variable jwt_sign : User → string → string.
Variable jwt_verify : string → string → string + User.

Import Auth.

(** ** Splitting and joining *)

Lemma split_cons sep c s :
  JS.split sep (String c s)
  = if bool_decide (c = sep) then "" :: JS.split sep s
    else match JS.split sep s with
         | p :: ps => String c p :: ps
         | [] => [String c ""]
         end.
Proof. reflexivity. Qed.

(** Joining the parts gives the string back. *)
Lemma join_split sep s : join sep (JS.split sep s) = s.
Proof.
  induction s as [|c s IH]; [done|]. rewrite split_cons.
  case_bool_decide as Hc.
  - subst c. pose proof (split_nonempty sep s).
    destruct (JS.split sep s) as [|p ps] eqn:Hs; [done|].
    change (join sep ("" :: p :: ps)) with (String sep (join sep (p :: ps))).
    by rewrite IH.
  - destruct (JS.split sep s) as [|p [|q ps]] eqn:Hs.
    + by destruct (split_nonempty sep s).
    + simpl in *. by rewrite IH.
    + change (join sep (String c p :: q :: ps))
        with (String c (join sep (p :: q :: ps))).
      by rewrite IH.
Qed.

(** No part contains the separator. *)
Lemma split_parts sep s : Forall (λ p, has_char sep p = false) (JS.split sep s).
Proof.
  induction s as [|c s IH]; [by repeat constructor|]. rewrite split_cons.
  case_bool_decide as Hc.
  - by constructor.
  - destruct (JS.split sep s) as [|p ps].
    + constructor; [|done]. simpl. by rewrite bool_decide_eq_false_2.
    + apply Forall_cons in IH as [Hp Hps]. constructor; [|done].
      simpl. by rewrite bool_decide_eq_false_2.
Qed.

(** A string without separator is its own single part. *)
Lemma split_plain sep s : has_char sep s = false → JS.split sep s = [s].
Proof.
  induction s as [|c s IH]; [done|]. simpl.
  intros [Hc Hs]%orb_false_iff. rewrite Hc, (IH Hs). done.
Qed.

Lemma split_app sep a s :
  has_char sep a = false → JS.split sep (a +:+ String sep s) = a :: JS.split sep s.
Proof.
  induction a as [|c a IH]; simpl.
  - intros _. by rewrite bool_decide_eq_true_2.
  - intros [Hc Ha]%orb_false_iff. rewrite Hc, (IH Ha). done.
Qed.

(** The strings that split into exactly two given parts. *)
Lemma split_two sep s a b :
  JS.split sep s = [a; b]
  ↔ s = a +:+ String sep b ∧ has_char sep a = false ∧ has_char sep b = false.
Proof.
  split.
  - intros Hs. pose proof (join_split sep s) as Hjoin.
    pose proof (split_parts sep s) as Hparts. rewrite Hs in Hjoin, Hparts.
    apply Forall_cons in Hparts as [Ha [Hb _]%Forall_cons].
    by rewrite <- Hjoin.
  - intros (-> & Ha & Hb). by rewrite split_app, split_plain.
Qed.

(** ** The bearer guard *)

Lemma requireJwt_bearer (req : Request) (token : string) (user : User) :
  authorization req = Some ("Bearer " +:+ token) →
  has_char " " token = false →
  jwt_verify token (Server.JWT_SECRET env_JWT_SECRET) = inr user →
  Server.requireJwt env_JWT_SECRET jwt_verify req = Next user.
Proof.
  intros Hauth Htoken Hverify. unfold Server.requireJwt. rewrite Hauth.
  assert (JS.split " " ("Bearer " +:+ token) = ["Bearer"; token]) as Hsplit.
  { by apply split_two. }
  assert (Server.not_string (Some ("Bearer " +:+ token)) = false) as -> by done.
  cbv zeta. change (default "" (Some ("Bearer " +:+ token))) with ("Bearer " +:+ token).
  rewrite Hsplit. simpl. by rewrite Hverify.
Qed.

(** The bearer guard lets a request through, with a given identity, exactly
    when its Authorization header is the literal Bearer, one space, and a
    token without spaces that the verifier decodes to that identity. *)
Theorem requireJwt_accepts (req : Request) (user : User) :
  Server.requireJwt env_JWT_SECRET jwt_verify req = Next user
  ↔ ∃ token, authorization req = Some ("Bearer " +:+ token)
             ∧ has_char " " token = false
             ∧ jwt_verify token (Server.JWT_SECRET env_JWT_SECRET) = inr user.
Proof.
  unfold Server.requireJwt. split.
  - destruct (authorization req) as [h|]; [|done]. simpl.
    case_bool_decide as Hh; [done|]. simpl.
    destruct (_ || _) eqn:Htest; [done|].
    apply bearer_shape in Htest as [token Hsplit]. rewrite Hsplit. simpl.
    destruct (jwt_verify _ _) as [message|decoded] eqn:Hverify; [done|].
    intros [= ->]. apply split_two in Hsplit as (-> & _ & Htoken).
    by exists token.
  - intros (token & Hauth & Htoken & Hverify).
    by apply (requireJwt_bearer req token user).
Qed.

(** ** Logging in *)

Lemma differs_false v s : differs v s = false ↔ v = JS.Str s.
Proof.
  destruct v as [| | | |x|]; simpl; try (split; discriminate).
  rewrite negb_false_iff, bool_decide_eq_true. split; congruence.
Qed.

Lemma login_jwt_code (c : Credentials.t) :
  code (login_jwt env_JWT_SECRET jwt_sign c) = code (login_cookie c).
Proof.
  unfold login_jwt, login_cookie.
  destruct (_ || _); [done|]. by destruct (_ || _).
Qed.

Lemma login_cookie_200 (c : Credentials.t) :
  code (login_cookie c) = 200%nat
  ↔ Credentials.username c = JS.Str "testuser"
    ∧ Credentials.password c = JS.Str "password123".
Proof.
  unfold login_cookie. split.
  - destruct (_ || _); [done|].
    destruct (differs (Credentials.username c) _) eqn:Hu; [done|].
    destruct (differs (Credentials.password c) _) eqn:Hp; [done|].
    intros _. by apply differs_false in Hu, Hp.
  - by intros [-> ->].
Qed.

(** The two login routes decide alike on every body: 200 exactly for the
    demo user's name and password given as strings, 400 exactly when the
    username or the password is missing or falsy, and 401 otherwise. A
    login that is not answered 200 sets no cookie and carries no token, and
    the token login never sets a cookie. *)
Theorem logins_accept_demo_credentials_only (c : Credentials.t) :
  let jwt := login_jwt env_JWT_SECRET jwt_sign c in
  let cookie := login_cookie c in
  code jwt = code cookie
  ∧ (code jwt = 200%nat
     ↔ Credentials.username c = JS.Str "testuser"
       ∧ Credentials.password c = JS.Str "password123")
  ∧ (code jwt = 400%nat
     ↔ JS.truthy (Credentials.username c) = false
       ∨ JS.truthy (Credentials.password c) = false)
  ∧ (code jwt = 200%nat ∨ code jwt = 400%nat ∨ code jwt = 401%nat)
  ∧ (code cookie ≠ 200%nat → setCookies cookie = [])
  ∧ (code jwt ≠ 200%nat → ∀ message token howToUse,
       payload jwt ≠ JsonLogin message token howToUse)
  ∧ setCookies jwt = [].
Proof.
  intros jwt cookie. subst jwt cookie. rewrite login_jwt_code.
  split_and!; [done|apply login_cookie_200|..].
  - unfold login_cookie. rewrite <- !negb_true_iff, <- orb_true_iff.
    destruct (_ || _); [done|]. split; [|done]. by destruct (_ || _).
  - unfold login_cookie. destruct (_ || _); [by right; left|].
    destruct (_ || _); [by right; right|by left].
  - unfold login_cookie. destruct (_ || _); [done|]. by destruct (_ || _).
  - rewrite <- login_jwt_code. unfold login_jwt.
    destruct (_ || _); [done|]. by destruct (_ || _).
  - unfold login_jwt. destruct (_ || _); [done|]. by destruct (_ || _).
Qed.

(** When the token the library signs for the demo user verifies to that
    user and contains no space, a login answered 200 hands out a token
    with which GET /auth/me and GET /students/protected/jwt-only answer 200
    with the demo user's name and role. *)
Theorem login_jwt_then_me (c : Credentials.t) :
  let secret := Server.JWT_SECRET env_JWT_SECRET in
  let demo := {| username := "testuser"; role := "student-admin" |} in
  jwt_verify (jwt_sign demo secret) secret = inr demo →
  has_char " " (jwt_sign demo secret) = false →
  code (login_jwt env_JWT_SECRET jwt_sign c) = 200%nat →
  ∃ token,
    payload (login_jwt env_JWT_SECRET jwt_sign c)
    = JsonLogin "Login successful. Use this token in Authorization header." token
        "Add header: Authorization: Bearer <token> to protected routes such as /students/protected"
    ∧ ∀ req, authorization req = Some ("Bearer " +:+ token) →
        me env_JWT_SECRET jwt_verify req
        = {| code := 200; payload := JsonMessageUser "You are authenticated with JWT!" demo;
             setCookies := [] |}
        ∧ Public.jwt_only (Server.requireJwt env_JWT_SECRET jwt_verify) req
          = {| code := 200;
               payload := JsonMessageUser "This students route is protected by JWT." demo;
               setCookies := [] |}.
Proof.
  intros secret demo Hverify Hspace H200.
  exists (jwt_sign demo secret). split.
  - unfold login_jwt in *. destruct (_ || _); [done|]. by destruct (_ || _).
  - intros req Hauth. unfold me, Public.jwt_only.
    by rewrite (requireJwt_bearer req (jwt_sign demo secret) demo).
Qed.

(** A cookie login answered 200 sets exactly one cookie, sessionId, and
    every request that carries that value passes the cookie guard: GET
    /auth/me-cookie and GET /students/protected/cookie-only answer 200, with
    the fixed identity cookieUser and not with the name that logged in. *)
Theorem login_cookie_then_me (c : Credentials.t) :
  code (login_cookie c) = 200%nat →
  ∃ value,
    setCookies (login_cookie c) = [SetCookie "sessionId" value true "Lax"]
    ∧ Credentials.username c ≠ JS.Str (username Server.cookieUser)
    ∧ ∀ req, sessionId req = Some value →
        me_cookie req
        = {| code := 200;
             payload := JsonMessageUser "You are authenticated with a cookie!"
                          Server.cookieUser;
             setCookies := [] |}
        ∧ Public.cookie_only Server.requireCookieLogin req
          = {| code := 200;
               payload := JsonMessageUser
                            "This students route is protected by cookie-based auth."
                            Server.cookieUser;
               setCookies := [] |}.
Proof.
  intros H200. pose proof H200 as [Hu Hp]%login_cookie_200.
  exists "dummy-session-id". split_and!.
  - unfold login_cookie in *. destruct (_ || _); [done|]. by destruct (_ || _).
  - by rewrite Hu.
  - intros req Hreq. unfold me_cookie, Public.cookie_only, Server.requireCookieLogin.
    by rewrite Hreq.
Qed.

End Logins.

(** * The order of the checks *)

Section Contract.

Variable toLowerCase : string → string.
Variable env_JWT_SECRET : option string.
Variable jwt_verify : string → string → string + User.

Import Students.

(** The checks of replace and patch come in a fixed order: a rejected
    credential answers 401 whatever the id and the body; then an id that is
    not a number answers 400 whatever the body; then an id that no record
    has answers 404 whatever the body, even an invalid one; replace then
    answers 400 for an invalid body even when its email is taken. In each
    of these cases the store is left as it was. *)
Theorem checks_come_in_order (requireJwt : Request → Guard) (req : Request) (st : Store) :
  (∀ r, requireJwt req = Rejected r →
     PUT toLowerCase requireJwt req st = (r, st)
     ∧ PATCH toLowerCase requireJwt req st = (r, st))
  ∧ (∀ user, requireJwt req = Next user →
     (params_id req = None →
      PUT toLowerCase requireJwt req st = ({| status := 400; json := invalid_id |}, st)
      ∧ PATCH toLowerCase requireJwt req st = ({| status := 400; json := invalid_id |}, st))
     ∧ (∀ id, params_id req = Some id →
        (∀ x, x ∈ students st → Student.id x ≠ id) →
        PUT toLowerCase requireJwt req st = ({| status := 404; json := not_found id |}, st)
        ∧ PATCH toLowerCase requireJwt req st
          = ({| status := 404; json := not_found id |}, st))
     ∧ (∀ id x, params_id req = Some id → x ∈ students st → Student.id x = id →
        Spec.violations (body req) ≠ [] →
        PUT toLowerCase requireJwt req st = (Spec.validation_failed (body req), st))).
Proof.
  unfold PUT, PATCH, protect. split.
  - by intros r ->.
  - intros user ->. split_and!.
    + by intros ->.
    + intros id -> Hnone.
      assert (list_find (λ s, Student.id s = id) (students st) = None) as Hfind.
      { by apply list_find_None, Forall_forall. }
      by rewrite put_missing, patch_missing.
    + intros id x -> Hx Hid Hbad.
      destruct (list_find (λ s, Student.id s = id) (students st)) as [[index s]|] eqn:Hfind.
      * apply (put_invalid toLowerCase id index s); [done|].
        by rewrite validate_violations.
      * rewrite list_find_None, Forall_forall in Hfind. by destruct (Hfind x).
Qed.

End Contract.

(** * The data model's rules across the operations *)

Section Rules.

Variable toLowerCase : string → string.

Import Students.

(** Every outcome of create, replace and delete is the old array, the old
    array with one more record, with one record replaced, or with one
    record removed, and a record that enters has passed full validation. *)
Lemma post_keeps (P : Student.t → Prop) b st :
  (∀ name age email isActive id, name ≠ "" → (0 < age)%Q → email ≠ "" →
     P (Student.mk id name age email isActive)) →
  Forall P (students st) →
  Forall P (students (run (post_student toLowerCase b) st).2).
Proof.
  intros Hnew Hall.
  destruct (decide (validate b = [])) as [Hnil|Hne]; [|by rewrite post_invalid].
  pose proof Hnil as (name & age & email & isActive & -> & ? & ? & ?)%validate_nil.
  fold (Spec.typed_body name age email isActive) in *.
  rewrite post_valid by done.
  destruct (list_find _ _) as [[i existing]|]; [done|].
  cbn [snd students]. apply Forall_app. split; [done|].
  apply Forall_singleton. by apply Hnew.
Qed.

Lemma put_keeps (P : Student.t → Prop) param b st :
  (∀ name age email isActive id, name ≠ "" → (0 < age)%Q → email ≠ "" →
     P (Student.mk id name age email isActive)) →
  Forall P (students st) →
  Forall P (students (run (put_student toLowerCase param b) st).2).
Proof.
  intros Hnew Hall. destruct param as [id|]; [|done].
  destruct (list_find (λ s, Student.id s = id) (students st)) as [[index s]|] eqn:Hfound;
    [|by rewrite put_missing].
  destruct (decide (validate b = [])) as [Hnil|Hne];
    [|by rewrite (put_invalid toLowerCase id index s)].
  pose proof Hnil as (name & age & email & isActive & -> & ? & ? & ?)%validate_nil.
  fold (Spec.typed_body name age email isActive) in *.
  rewrite (put_valid toLowerCase id index s) by done.
  destruct (list_find (λ x, _ ∧ _) _) as [[i existing]|]; [done|].
  cbn [snd students]. apply Forall_insert; [done|]. by apply Hnew.
Qed.

Lemma delete_keeps (P : Student.t → Prop) param st :
  Forall P (students st) → Forall P (students (run (delete_student param) st).2).
Proof.
  intros Hall. rewrite delete_cases. destruct param as [id|]; [|done].
  destruct (list_find _ _) as [[index deleted]|]; [|done].
  by apply Forall_delete.
Qed.

Lemma with_age_positive v s :
  Spec.positive_or_absent v = true →
  Data.positive_age s → Data.positive_age (Spec.with_age v s).
Proof.
  destruct v as [| | |q| |]; try done. unfold Data.positive_age. simpl.
  by destruct (Qlt_le_dec 0 q).
Qed.

(** The rules of the data model on stored records: create, replace and
    delete, on every path, keep every record with a non-empty name, a
    strictly positive age and a non-empty email; patch, on every path,
    keeps every age strictly positive. *)
Theorem records_stay_well_formed (st : Store) (param : option Z) (b : Body.t) :
  (Forall Data.well_formed (students st) →
   Forall Data.well_formed (students (run (post_student toLowerCase b) st).2)
   ∧ Forall Data.well_formed (students (run (put_student toLowerCase param b) st).2)
   ∧ Forall Data.well_formed (students (run (delete_student param) st).2))
  ∧ (Forall Data.positive_age (students st) →
     Forall Data.positive_age (students (run (patch_student toLowerCase param b) st).2)).
Proof.
  split.
  - intros Hall. split_and!.
    + by apply post_keeps.
    + by apply put_keeps.
    + by apply delete_keeps.
  - intros Hall. destruct param as [id|]; [|done].
    destruct (list_find (λ s, Student.id s = id) (students st)) as [[index s]|] eqn:Hfound;
      [|by rewrite patch_missing].
    destruct (found_lookup _ _ _ _ Hfound) as [Hat Hid].
    assert (Hs : Data.positive_age s).
    { rewrite Forall_lookup in Hall. by eapply Hall. }
    rewrite (patch_cases toLowerCase id index s) by done.
    set (s1 := Spec.with_name (Body.name b) s).
    assert (H1 : Data.positive_age s1) by (unfold s1; by destruct (Body.name b)).
    destruct (Spec.text_or_absent (Body.name b)); cbn [negb]; [|done].
    destruct (Spec.positive_or_absent (Body.age b)) eqn:Hage; cbn [negb];
      [|by apply Forall_insert].
    set (s2 := Spec.with_age (Body.age b) s1).
    assert (H2 : Data.positive_age s2) by (by apply with_age_positive).
    set (s3 := Spec.with_email (Body.email b) s2).
    assert (H3 : Data.positive_age s3) by (unfold s3; by destruct (Body.email b)).
    destruct (Spec.text_or_absent (Body.email b)); cbn [negb]; [|by apply Forall_insert].
    destruct (Spec.conflict _ _ _ _); [by apply Forall_insert|].
    destruct (Spec.boolean_or_absent (Body.isActive b)); cbn [negb];
      [|by apply Forall_insert].
    cbn [snd students]. apply Forall_insert; [done|].
    by destruct (Body.isActive b).
Qed.

(** In a store with unique emails and ids, sending a well-formed stored
    record back unchanged with PUT on its own id answers 200 with that
    record and leaves the array as it was. *)
Theorem put_own_record_is_noop (st : Store) (s : Student.t) :
  Spec.store_ok toLowerCase (students st) →
  s ∈ students st → Data.well_formed s →
  let out := run (put_student toLowerCase (Some (Student.id s)) (Data.body_of s)) st in
  out.1 = {| status := 200; json := JsonMessageStudent "Student updated" s |}
  ∧ students out.2 = students st
  ∧ file out.2 = students st.
Proof.
  intros [Hemails Hids] [i Hi]%list_elem_of_lookup_1 (Hname & Hage & Hemail) out.
  assert (Hfound : Spec.found (students st) (Student.id s) i s).
  { unfold Spec.found.
    destruct (list_find (λ x, Student.id x = Student.id s) (students st))
      as [[j y]|] eqn:Hfind.
    - pose proof Hfind as (Hj & Hy & _)%list_find_Some.
      assert (j = i) as -> by (by eapply Hids). congruence.
    - rewrite list_find_None, Forall_forall in Hfind.
      destruct (Hfind s); [by eapply list_elem_of_lookup_2|done]. }
  assert (Hok : validate (Data.body_of s) = []).
  { apply validate_nil. by exists (Student.name s), (Student.age s), (Student.email s),
      (Student.isActive s). }
  assert (Hnone : list_find (λ x, same_email toLowerCase (Student.email s) x
                                  ∧ Student.id x ≠ Student.id s) (students st) = None).
  { apply list_find_None, Forall_forall.
    intros x [j Hj]%list_elem_of_lookup_1 [Hsame Hne]. apply Hne.
    assert (j = i) as -> by (by eapply Hemails). congruence. }
  subst out. unfold Data.body_of in *.
  rewrite (put_valid toLowerCase (Student.id s) i s) by done.
  rewrite Hnone. cbn [fst snd students file].
  assert ({| Student.id := Student.id s; Student.name := Student.name s;
             Student.age := Student.age s; Student.email := Student.email s;
             Student.isActive := Student.isActive s |} = s) as -> by (by destruct s).
  by rewrite list_insert_id.
Qed.

End Rules.

(** * The theorems above on concrete requests *)

Lemma sample_found_ann : Spec.found (students Sample.store) 1 0 Sample.ann.
Proof. reflexivity. Qed.

Lemma sample_own_email x :
  x ∈ students Sample.store →
  Students.same_email JS.asciiLowerCase "BOB@example.org" x → Student.id x = 2.
Proof.
  intros Hx Hsame. simpl in Hx.
  apply elem_of_cons in Hx as [->|Hx]; [by vm_compute in Hsame|].
  apply elem_of_cons in Hx as [->|Hx]; [done|].
  by apply elem_of_nil in Hx.
Qed.

Lemma listed_students_can_be_fetched_witness :
  Public.get_student (Some 2) Sample.store
  = ({| code := 200; payload := JsonStudent Sample.bob; setCookies := [] |}, Sample.store).
Proof.
  apply (proj2 (listed_students_can_be_fetched Sample.store (proj2 sample_store_ok))
           Sample.bob).
  apply list_elem_of_further, list_elem_of_here.
Defined.

Lemma read_after_create_witness :
  Public.get_student (Some 3)
    (run (Students.post_student JS.asciiLowerCase Sample.cid) Sample.store).2
  = ({| code := 200;
        payload := JsonStudent (Student.mk 3 "Cid" (45 # 2) "cid@example.org" true);
        setCookies := [] |},
     (run (Students.post_student JS.asciiLowerCase Sample.cid) Sample.store).2).
Proof.
  apply (read_after_create JS.asciiLowerCase Sample.store
           "Cid" (45 # 2) "cid@example.org" true);
    [done | reflexivity | done | apply sample_cid_not_held | apply sample_safe_ids].
Defined.

Lemma read_after_put_witness :
  Public.get_student (Some 2)
    (run (Students.put_student JS.asciiLowerCase (Some 2)
            (Spec.typed_body "Robert" (30 # 1) "BOB@example.org" true)) Sample.store).2
  = ({| code := 200;
        payload := JsonStudent (Student.mk 2 "Robert" (30 # 1) "BOB@example.org" true);
        setCookies := [] |},
     (run (Students.put_student JS.asciiLowerCase (Some 2)
             (Spec.typed_body "Robert" (30 # 1) "BOB@example.org" true)) Sample.store).2).
Proof.
  apply (read_after_put JS.asciiLowerCase Sample.store 2 1 Sample.bob
           "Robert" (30 # 1) "BOB@example.org" true sample_found_bob);
    [done | reflexivity | done | apply sample_own_email].
Defined.

(** GET after the 400 of [{"name":"Bobby","age":0}] shows the new name. *)
Lemma read_after_patch_witness :
  status (run (Students.patch_student JS.asciiLowerCase (Some 2) Sample.bobby_age0)
            Sample.store).1 = 400%nat
  ∧ Public.get_student (Some 2)
      (run (Students.patch_student JS.asciiLowerCase (Some 2) Sample.bobby_age0)
         Sample.store).2
    = ({| code := 200;
          payload := JsonStudent (Student.mk 2 "Bobby" (21 # 1) "bob@example.org" false);
          setCookies := [] |},
       (run (Students.patch_student JS.asciiLowerCase (Some 2) Sample.bobby_age0)
          Sample.store).2).
Proof.
  apply (read_after_patch JS.asciiLowerCase Sample.store 2 1 Sample.bob Sample.bobby_age0
           sample_found_bob); reflexivity.
Defined.

Lemma read_after_delete_witness :
  Public.get_student (Some 1) (run (Students.delete_student (Some 1)) Sample.store).2
  = ({| code := 404; payload := PlainJson (JsonError "Student with id 1 not found");
        setCookies := [] |},
     {| students := [Sample.bob]; file := [Sample.bob] |}).
Proof.
  apply (read_after_delete Sample.store 1 0 Sample.ann sample_found_ann
           (proj2 sample_store_ok)).
Defined.

Lemma create_then_delete_witness :
  (run (Students.delete_student (Some 3))
     (run (Students.post_student JS.asciiLowerCase Sample.cid) Sample.store).2).2
  = {| students := [Sample.ann; Sample.bob]; file := [Sample.ann; Sample.bob] |}.
Proof.
  apply (create_then_delete JS.asciiLowerCase Sample.store
           "Cid" (45 # 2) "cid@example.org" true
           "Cid" (45 # 2) "cid@example.org" true);
    [done | reflexivity | done | apply sample_cid_not_held
    |done | reflexivity | done | apply sample_cid_not_held | apply sample_safe_ids].
Defined.

(** The 400 of [{"name":"Bobby","age":0}], then a create: the file says
    Bobby. *)
Lemma failed_patch_is_written_later_witness :
  file (run (Students.post_student JS.asciiLowerCase Sample.cid)
          (run (Students.patch_student JS.asciiLowerCase (Some 2) Sample.bobby_age0)
             Sample.store).2).2 !! 1%nat
  = Some (Student.mk 2 "Bobby" (21 # 1) "bob@example.org" false).
Proof.
  apply (failed_patch_is_written_later JS.asciiLowerCase Sample.store 2 1 Sample.bob
           Sample.bobby_age0 "Cid" (45 # 2) "cid@example.org" true sample_found_bob);
    [reflexivity | reflexivity | done | reflexivity | done | apply sample_cid_fresh].
Defined.

Lemma login_jwt_then_me_witness :
  Auth.me None Sample.verify (Demo.bearer "good")
  = {| code := 200;
       payload := JsonMessageUser "You are authenticated with JWT!"
                    {| username := "testuser"; role := "student-admin" |};
       setCookies := [] |}.
Proof.
  destruct (login_jwt_then_me None Demo.sign Sample.verify Demo.credentials)
    as (token & Htoken & Hme); [reflexivity..|].
  injection Htoken as <-.
  apply (Hme (Demo.bearer "good")). reflexivity.
Defined.

Lemma login_cookie_then_me_witness :
  Auth.me_cookie (Sample.request None (Some "dummy-session-id"))
  = {| code := 200;
       payload := JsonMessageUser "You are authenticated with a cookie!" Server.cookieUser;
       setCookies := [] |}.
Proof.
  destruct (login_cookie_then_me Demo.credentials) as (value & Hset & _ & Hme);
    [reflexivity|].
  injection Hset as <-.
  apply (Hme (Sample.request None (Some "dummy-session-id"))). reflexivity.
Defined.

Lemma errors_leave_store_witness :
  (run (Students.post_student JS.asciiLowerCase (Data.body_of Sample.bob)) Sample.store).2
  = Sample.store.
Proof.
  apply (proj1 (errors_leave_store JS.asciiLowerCase Sample.store None
                  (Data.body_of Sample.bob))).
  right. reflexivity.
Defined.

Lemma sample_bob_well_formed : Data.well_formed Sample.bob.
Proof. split_and!; [done|reflexivity|done]. Qed.

Lemma put_own_record_is_noop_witness :
  students (run (Students.put_student JS.asciiLowerCase (Some 2) (Data.body_of Sample.bob))
              Sample.store).2
  = [Sample.ann; Sample.bob].
Proof.
  apply (put_own_record_is_noop JS.asciiLowerCase Sample.store Sample.bob
           sample_store_ok).
  - apply list_elem_of_further, list_elem_of_here.
  - apply sample_bob_well_formed.
Defined.
